(** * RTCM monitor: frame decoder, satellite-count extractors, NTRIP
      handshake and reconnecting coordinator

    Shallow embedding of [ntrip_client.py] ([NTRIPClient]) and
    [coordinator.py] ([RTCMCoordinator]).

    - Python [bytes] are lists of [byte]; indexing a [bytes] object gives
      the integer value of the byte ([byte_val]).
    - Python integers are unbounded, so they are [Z] without wrap-around.
    - A Python [str] is a list of Unicode code points ([pystr]).
    - [None] / a value is [option]. *)

From Stdlib Require Import Strings.Byte Ascii String DecimalString.
From stdpp Require Import base numbers list sorting strings gmap.

Local Open Scope Z_scope.

(** ** Python primitives used by the client *)

Definition byte_val (b : byte) : Z := Z.of_N (Byte.to_N b).

(** [b[i:j]] for [0 <= i <= j]: never raises, truncates at the end. *)
Definition slice {A} (i j : nat) (l : list A) : list A :=
  take (j - i) (drop i l).

(** [int.from_bytes(bs, byteorder='big')] *)
Definition int_from_bytes_big (bs : list byte) : Z :=
  fold_left (fun acc b => acc * 256 + byte_val b) bs 0.

(** [bin(x).count('1')]: the ones among the binary digits of [abs x]
    (the [0b] prefix and a sign contain no ['1']). *)
Fixpoint pos_ones (p : positive) : Z :=
  match p with
  | xH => 1
  | xO q => pos_ones q
  | xI q => 1 + pos_ones q
  end.

Definition bin_count_ones (x : Z) : Z :=
  match x with
  | Z0 => 0
  | Zpos p => pos_ones p
  | Zneg p => pos_ones p
  end.

(** ** Decoded message: the dict [{'id', 'length', 'satellites'}] *)

Record message_info := MessageInfo {
  info_id : Z;
  info_length : Z;
  info_satellites : option Z
}.

(** ** Satellite-count extractors *)

(** [NTRIPClient._parse_legacy_obs_satellite_count].  Nothing in the body
    can raise (slices truncate, the arithmetic is on unbounded integers),
    so the [except] branch is never taken. *)
Definition _parse_legacy_obs_satellite_count
    (message : list byte) (msg_id : Z) : option Z :=
  if (length message <? 10)%nat then None
  else
    let is_glonass := (1009 <=? msg_id) && (msg_id <=? 1012) in
    let bits_before_sat_count := if is_glonass then 52 else 55 in
    let payload_bytes := slice 3 11 message in
    if (length payload_bytes <? 8)%nat then None
    else
      let bit_stream := int_from_bytes_big payload_bytes in
      let shift_amount := 64 - bits_before_sat_count - 5 in
      let sat_count := Z.land (Z.shiftr bit_stream shift_amount) 0x1F in
      if (0 <=? sat_count) && (sat_count <=? 64)
      then (if 0 <? sat_count then Some sat_count else None)
      else None.

(** Keys of the [legacy_obs_messages] dict with their constellation. *)
Definition legacy_obs_messages : list (Z * string) :=
  [ (1001, "gps"); (1002, "gps"); (1003, "gps"); (1004, "gps");
    (1009, "glonass"); (1010, "glonass"); (1011, "glonass");
    (1012, "glonass") ]%string.

Definition msm_ranges : list (Z * Z) :=
  [ (1074, 1077); (1084, 1087); (1094, 1097); (1114, 1117); (1124, 1127) ].

(** [msg_id in legacy_obs_messages] (membership among the keys) *)
Definition in_legacy_obs_messages (msg_id : Z) : bool :=
  existsb (fun kv => fst kv =? msg_id) legacy_obs_messages.

(** [any(start <= msg_id <= end for start, end in msm_ranges)] *)
Definition is_msm (msg_id : Z) : bool :=
  existsb (fun r => (fst r <=? msg_id) && (msg_id <=? snd r)) msm_ranges.

(** [NTRIPClient._parse_msm_satellite_count] *)
Definition _parse_msm_satellite_count
    (message : list byte) (msg_id : Z) : option Z :=
  if in_legacy_obs_messages msg_id
  then _parse_legacy_obs_satellite_count message msg_id
  else if negb (is_msm msg_id) || (length message <? 14)%nat then None
  else if (length message <? 20)%nat then None
  else
    let sat_mask_bytes := slice 11 19 message in
    let sat_mask := int_from_bytes_big sat_mask_bytes in
    let sat_count := bin_count_ones sat_mask in
    if 0 <? sat_count then Some sat_count else None.

(** ** Frame decoder *)

(** The leading loop of [_process_buffer]:
    [while buffer and buffer[0] != 0xD3: buffer = buffer[1:]] *)
Fixpoint trim_to_marker (buffer : list byte) : list byte :=
  match buffer with
  | [] => []
  | b :: rest => if byte_val b =? 0xD3 then buffer else trim_to_marker rest
  end.

(** The main [while len(buffer) - idx >= 6] loop, one iteration per unit of
    fuel; the state is [(idx, messages)].  The guard holds exactly when
    [buffer[idx:]] has six elements, which are bound by the pattern:
    [b0 = buffer[idx]], ..., [b4 = buffer[idx + 4]]. *)
Fixpoint scan_frames (fuel : nat) (buffer : list byte) (idx : nat)
    (messages : list message_info) : nat * list message_info :=
  match fuel with
  | O => (idx, messages)
  | S fuel' =>
    match drop idx buffer with
    | b0 :: b1 :: b2 :: b3 :: b4 :: _ :: _ =>
      if negb (byte_val b0 =? 0xD3)
      then scan_frames fuel' buffer (idx + 1) messages
      else
        let msg_len :=
          Z.lor (Z.shiftl (Z.land (byte_val b1) 0x03) 8) (byte_val b2) in
        let total_msg_len := msg_len + 6 in
        if Z.of_nat (length buffer - idx) <? total_msg_len
        then (idx, messages)
        else
          let msg_id := Z.lor (Z.shiftl (byte_val b3) 4)
                              (Z.shiftr (byte_val b4) 4) in
          let sat_count :=
            _parse_msm_satellite_count
              (slice idx (idx + Z.to_nat total_msg_len) buffer) msg_id in
          let message_info := MessageInfo msg_id msg_len sat_count in
          scan_frames fuel' buffer (idx + Z.to_nat total_msg_len)
                      (messages ++ [message_info])
    | _ => (idx, messages)
    end
  end.

(** The part of [_process_buffer] after the trimming: run the main loop
    from [idx = 0] and return [(buffer[idx:], messages)].  Every iteration
    advances [idx] by at least one and needs six bytes at [idx], so
    [length buffer] iterations are enough ([scan_frames_decodes]). *)
Definition decode (buffer : list byte) : list byte * list message_info :=
  let '(idx, messages) := scan_frames (length buffer) buffer 0 [] in
  (drop idx buffer, messages).

(** [NTRIPClient._process_buffer]: returns
    [(remaining_buffer, messages)]. *)
Definition _process_buffer (buffer : list byte)
    : list byte * list message_info :=
  decode (trim_to_marker buffer).

(** The read loop of [connect], reduced to its decoder calls: each chunk
    read from the socket is appended to the remaining buffer of the
    previous call ([buffer += data]) and the result is decoded again. *)
Fixpoint feed_chunks (buffer : list byte) (chunks : list (list byte))
    : list message_info :=
  match chunks with
  | [] => []
  | data :: chunks' =>
    let '(buffer', messages) := _process_buffer (buffer ++ data) in
    messages ++ feed_chunks buffer' chunks'
  end.

(** ** Header fields of the frame at the head of a buffer *)

(** [((buffer[1] & 0x03) << 8) | buffer[2]] *)
Definition declared_length (l : list byte) : Z :=
  match l with
  | _ :: b1 :: b2 :: _ =>
    Z.lor (Z.shiftl (Z.land (byte_val b1) 0x03) 8) (byte_val b2)
  | _ => 0
  end.

(** [(buffer[3] << 4) | (buffer[4] >> 4)] *)
Definition frame_id (l : list byte) : Z :=
  match l with
  | _ :: _ :: _ :: b3 :: b4 :: _ =>
    Z.lor (Z.shiftl (byte_val b3) 4) (Z.shiftr (byte_val b4) 4)
  | _ => 0
  end.

Definition frame_size (l : list byte) : nat :=
  Z.to_nat (declared_length l + 6).

Definition frame_message (l : list byte) : message_info :=
  MessageInfo (frame_id l) (declared_length l)
    (_parse_msm_satellite_count (take (frame_size l) l) (frame_id l)).

Definition at_marker (l : list byte) : Prop :=
  match l with
  | b :: _ => byte_val b = 0xD3
  | [] => False
  end.

(** Big-step reading of the main loop on the unconsumed suffix
    [buffer[idx:]]: [Decodes l rem ms] when the loop started at the head of
    [l] stops with [rem] unconsumed after appending [ms]. *)
Inductive Decodes : list byte -> list byte -> list message_info -> Prop :=
| Decodes_short l :
    (length l < 6)%nat ->
    Decodes l l []
| Decodes_skip b l rem ms :
    (6 <= length (b :: l))%nat ->
    byte_val b <> 0xD3 ->
    Decodes l rem ms ->
    Decodes (b :: l) rem ms
| Decodes_wait l :
    (6 <= length l)%nat ->
    at_marker l ->
    (length l < frame_size l)%nat ->
    Decodes l l []
| Decodes_frame l rem ms :
    (6 <= length l)%nat ->
    at_marker l ->
    (frame_size l <= length l)%nat ->
    Decodes (drop (frame_size l) l) rem ms ->
    Decodes l rem (frame_message l :: ms).

(** ** Python strings *)

(** A [str] is its sequence of code points. *)
Definition pystr := list Z.

(** A string literal of the source (ASCII only). *)
Definition str_lit (s : string) : pystr :=
  map (fun a => Z.of_N (N_of_ascii a)) (list_ascii_of_string s).

(** A bytes literal of the source (ASCII only). *)
Definition bytes_lit (s : string) : list byte := list_byte_of_string s.

(** [str(n)] for an integer, as an f-string prints it. *)
Definition str_of_int (n : Z) : pystr :=
  str_lit (DecimalString.NilZero.string_of_int (Z.to_int n)).

(** [bytes.decode('utf-8', errors='ignore')]: well-formed sequences give
    their code point; an ill-formed one is dropped up to the byte that
    breaks it, and a sequence cut off by the end of the data is dropped. *)
Definition is_continuation (c : Z) : bool := (0x80 <=? c) && (c <=? 0xBF).

Definition second_of_3_ok (c0 c1 : Z) : bool :=
  is_continuation c1
  && negb (if c1 <? 0xA0 then c0 =? 0xE0 else c0 =? 0xED).

Definition second_of_4_ok (c0 c1 : Z) : bool :=
  is_continuation c1
  && negb (if c1 <? 0x90 then c0 =? 0xF0 else c0 =? 0xF4).

Fixpoint utf8_decode_ignore (bs : list byte) : pystr :=
  match bs with
  | [] => []
  | b0 :: r1 =>
    let c0 := byte_val b0 in
    if c0 <? 0x80 then c0 :: utf8_decode_ignore r1
    else if c0 <? 0xC2 then utf8_decode_ignore r1
    else if c0 <? 0xE0 then
      match r1 with
      | [] => []
      | b1 :: r2 =>
        let c1 := byte_val b1 in
        if is_continuation c1
        then Z.lor (Z.shiftl (Z.land c0 0x1F) 6) (Z.land c1 0x3F)
             :: utf8_decode_ignore r2
        else utf8_decode_ignore r1
      end
    else if c0 <? 0xF0 then
      match r1 with
      | [] => []
      | b1 :: r2 =>
        let c1 := byte_val b1 in
        if negb (second_of_3_ok c0 c1) then utf8_decode_ignore r1
        else
          match r2 with
          | [] => []
          | b2 :: r3 =>
            let c2 := byte_val b2 in
            if is_continuation c2
            then Z.lor (Z.shiftl (Z.land c0 0x0F) 12)
                   (Z.lor (Z.shiftl (Z.land c1 0x3F) 6) (Z.land c2 0x3F))
                 :: utf8_decode_ignore r3
            else utf8_decode_ignore r2
          end
      end
    else if c0 <? 0xF5 then
      match r1 with
      | [] => []
      | b1 :: r2 =>
        let c1 := byte_val b1 in
        if negb (second_of_4_ok c0 c1) then utf8_decode_ignore r1
        else
          match r2 with
          | [] => []
          | b2 :: r3 =>
            let c2 := byte_val b2 in
            if negb (is_continuation c2) then utf8_decode_ignore r2
            else
              match r3 with
              | [] => []
              | b3 :: r4 =>
                let c3 := byte_val b3 in
                if is_continuation c3
                then Z.lor (Z.shiftl (Z.land c0 0x07) 18)
                       (Z.lor (Z.shiftl (Z.land c1 0x3F) 12)
                          (Z.lor (Z.shiftl (Z.land c2 0x3F) 6)
                                 (Z.land c3 0x3F)))
                     :: utf8_decode_ignore r4
                else utf8_decode_ignore r3
              end
          end
      end
    else utf8_decode_ignore r1
  end.

(** [s.split('\n')[0]]: the characters before the first line feed. *)
Fixpoint first_line_of (s : pystr) : pystr :=
  match s with
  | [] => []
  | c :: r => if c =? 10 then [] else c :: first_line_of r
  end.

(** The characters [str.strip()] removes ([str.isspace]). *)
Definition is_space (c : Z) : bool :=
  ((0x09 <=? c) && (c <=? 0x0D)) || ((0x1C <=? c) && (c <=? 0x20))
  || (c =? 0x85) || (c =? 0xA0) || (c =? 0x1680)
  || ((0x2000 <=? c) && (c <=? 0x200A))
  || (c =? 0x2028) || (c =? 0x2029) || (c =? 0x202F) || (c =? 0x205F)
  || (c =? 0x3000).

Fixpoint lstrip (s : pystr) : pystr :=
  match s with
  | [] => []
  | c :: r => if is_space c then lstrip r else s
  end.

Definition strip (s : pystr) : pystr :=
  reverse (lstrip (reverse (lstrip s))).

(** [needle in hay] on strings. *)
Fixpoint starts_with (needle hay : pystr) : bool :=
  match needle, hay with
  | [], _ => true
  | _ :: _, [] => false
  | n :: needle', h :: hay' => (n =? h) && starts_with needle' hay'
  end.

Fixpoint str_contains (needle hay : pystr) : bool :=
  starts_with needle hay
  || match hay with
     | [] => false
     | _ :: hay' => str_contains needle hay'
     end.

(** [hay.find(needle)] on bytes: the first index where [needle] starts,
    [-1] when there is none ([find_at] carries the index of the head). *)
Fixpoint bytes_start_with (needle hay : list byte) : bool :=
  match needle, hay with
  | [], _ => true
  | _ :: _, [] => false
  | n :: needle', h :: hay' => Byte.eqb n h && bytes_start_with needle' hay'
  end.

Fixpoint find_at (i : Z) (needle hay : list byte) : Z :=
  if bytes_start_with needle hay then i
  else match hay with
       | [] => -1
       | _ :: hay' => find_at (i + 1) needle hay'
       end.

Definition bytes_find (hay needle : list byte) : Z := find_at 0 needle hay.

(** ** Transport session: [NTRIPClient.connect]

    The socket is a script: whether [open_connection] succeeds, then what
    each [reader.read] gives.  A session yields messages and then either
    raises or is left waiting in a read ([Blocked]) when the script ends.
    Writing the request is not modelled. *)

Inductive exn :=
| TimeoutError                   (* asyncio.TimeoutError *)
| ConnectionError (msg : pystr)  (* ConnectionError(msg) *)
| OSError (msg : pystr)          (* another OSError, [str(e) = msg] *)
| OtherException (msg : pystr).  (* any other Exception, [str(e) = msg] *)

Inductive open_result :=
| Opened
| OpenFailed (text : pystr).     (* OSError or timeout, [str(e) = text] *)

Inductive read_result :=
| ReadData (data : list byte)    (* [b''] when the peer has closed *)
| ReadRaises (e : exn).          (* [wait_for] timeout or a socket error *)

Inductive session_end :=
| Raised (e : exn)
| Blocked.

Record NTRIPClient := {
  host : pystr;
  port : Z;
  mountpoint : pystr;
  username : pystr;
  password : pystr
}.

(** Lines 74-114 of [connect]: what the first chunk read from the server
    leads to, an exception or the bytes that seed the buffer. *)
Definition check_response (initial_data : list byte) : exn + list byte :=
  match initial_data with
  | [] =>
    inl (ConnectionError
           (str_lit "Server closed connection without sending response"))
  | _ :: _ =>
    let data_str := utf8_decode_ignore initial_data in
    let first_line := strip (first_line_of data_str) in
    if negb (str_contains (str_lit "200") first_line)
    then inl (ConnectionError (str_lit "NTRIP server returned: " ++ first_line))
    else
      let header_end := bytes_find initial_data [x0d; x0a; x0d; x0a] in
      let header_end :=
        if header_end =? -1
        then
          let header_end := bytes_find initial_data [x0a; x0a] in
          if negb (header_end =? -1) then header_end + 2 else header_end
        else header_end + 4 in
      inr (if 0 <? header_end
           then drop (Z.to_nat header_end) initial_data
           else initial_data)
  end.

(** The [while True] loop of [connect]: decode the buffer when it is not
    empty and yield its messages, then read. *)
Fixpoint read_loop (buffer : list byte) (reads : list read_result)
    : list message_info * session_end :=
  let '(buffer, messages) :=
    match buffer with
    | [] => (buffer, [])
    | _ :: _ => _process_buffer buffer
    end in
  match reads with
  | [] => (messages, Blocked)
  | ReadRaises e :: _ => (messages, Raised e)
  | ReadData [] :: _ =>
    (messages, Raised (ConnectionError (str_lit "Stream closed by server")))
  | ReadData data :: reads' =>
    let '(more, ending) := read_loop (buffer ++ data) reads' in
    (messages ++ more, ending)
  end.

(** [NTRIPClient.connect]: the messages yielded, in order, and how the
    generator ends. *)
Definition connect (self : NTRIPClient) (opened : open_result)
    (reads : list read_result) : list message_info * session_end :=
  match opened with
  | OpenFailed text =>
    ([], Raised (ConnectionError
                   (str_lit "Failed to connect to " ++ host self
                    ++ str_lit ":" ++ str_of_int (port self)
                    ++ str_lit ": " ++ text)))
  | Opened =>
    match reads with
    | [] => ([], Blocked)
    | ReadRaises TimeoutError :: _ =>
      ([], Raised (ConnectionError
                     (str_lit "Timeout waiting for HTTP response (10s)")))
    | ReadRaises e :: _ => ([], Raised e)
    | ReadData initial_data :: reads' =>
      match check_response initial_data with
      | inl e => ([], Raised e)
      | inr buffer => read_loop buffer reads'
      end
    end
  end.

(** ** Supervisor: [RTCMCoordinator] *)

(** [l[start:]] for any integer [start]: a negative one counts from the
    end (and [-0] is [0]: the whole list). *)
Definition slice_from {A} (start : Z) (l : list A) : list A :=
  if start <? 0
  then drop (Z.to_nat (Z.max 0 (Z.of_nat (length l) + start))) l
  else drop (Z.to_nat start) l.

(** The attributes of the coordinator that [_run] reads or writes;
    [stop_event] is [_stop_event.is_set()], times are clock readings. *)
Record RTCMCoordinator := {
  timeout : Z;
  connected : bool;
  last_message : option pystr;
  last_message_type : option Z;
  message_types : list Z;
  message_count : Z;
  last_update : option Z;
  connection_time : option Z;
  error_message : option pystr;
  satellite_count : Z;
  gps_satellites : Z;
  glonass_satellites : Z;
  galileo_satellites : Z;
  beidou_satellites : Z;
  total_satellites : Z;
  stop_event : bool
}.

(** [RTCMCoordinator.__init__], with [conf["timeout"]] already looked up. *)
Definition __init__ (conf_timeout : Z) : RTCMCoordinator :=
  {| timeout := conf_timeout;
     connected := false;
     last_message := None;
     last_message_type := None;
     message_types := [];
     message_count := 0;
     last_update := None;
     connection_time := None;
     error_message := None;
     satellite_count := 0;
     gps_satellites := 0;
     glonass_satellites := 0;
     galileo_satellites := 0;
     beidou_satellites := 0;
     total_satellites := 0;
     stop_event := false |}.

(** [a <= x <= b] *)
Definition between (a x b : Z) : bool := (a <=? x) && (x <=? b).

(** [if sat_count:] -- [None] and [0] are false. *)
Definition truthy (sat_count : option Z) : bool :=
  match sat_count with
  | Some n => negb (n =? 0)
  | None => false
  end.

(** Where [_run] is waiting, what it does, and what wakes it up.
    [Finished]: [_run] has returned, or an exception has left it. *)
Inductive phase := Streaming | Sleeping | Finished.

Inductive action :=
| Connect (timeout : Z)          (* [self.client.connect(timeout=...)] *)
| Notify                         (* [_notify_listeners()] *)
| Sleep (seconds : Z).           (* [asyncio.sleep(seconds)] *)

Inductive event :=
| Yielded (now : Z * Z) (msg_info : message_info)
| Failed (e : exn)               (* the session raises [e] *)
| Woke                           (* the sleep is over *)
| StopRequested                  (* [_stop_event.set()] *)
| Cancelled                      (* [task.cancel()] reaches the task *)
| ListenerRaised (e : exn).      (* the session raises [e], and a callback
                                    raises in [_notify_listeners()] *)

(** [const.py] is not among the sources: the constant [_run] takes from
    it is a parameter of the model. *)
Class Const := { MAX_MESSAGE_TYPES : Z }.

Section Coordinator.

Context {const : Const}.

(** Lines 120-124: track the distinct message types with a size limit. *)
Definition track_message_type (msg_type : Z) (message_types : list Z)
    : list Z :=
  if bool_decide (msg_type ∈ message_types) then message_types
  else
    let message_types := message_types ++ [msg_type] in
    if MAX_MESSAGE_TYPES <? Z.of_nat (length message_types)
    then slice_from (- MAX_MESSAGE_TYPES) message_types
    else message_types.

(** Lines 107-154: the body of the [async for] loop once the stop check
    has passed.  [now] holds the two clock readings of lines 113 and 116. *)
Definition on_message (now : Z * Z) (self : RTCMCoordinator)
    (msg_info : message_info) : RTCMCoordinator :=
  let msg_type := info_id msg_info in
  let sat_count := info_satellites msg_info in
  let n := default 0 sat_count in
  let '(gps, glonass, galileo, beidou) :=
    let gps := gps_satellites self in
    let glonass := glonass_satellites self in
    let galileo := galileo_satellites self in
    let beidou := beidou_satellites self in
    if truthy sat_count then
      if between 1001 msg_type 1004 then (n, glonass, galileo, beidou)
      else if between 1009 msg_type 1012 then (gps, n, galileo, beidou)
      else if between 1074 msg_type 1077 then (n, glonass, galileo, beidou)
      else if between 1084 msg_type 1087 then (gps, n, galileo, beidou)
      else if between 1094 msg_type 1097 then (gps, glonass, n, beidou)
      else if between 1124 msg_type 1127 then (gps, glonass, galileo, n)
      else (gps, glonass, galileo, beidou)
    else (gps, glonass, galileo, beidou) in
  {| timeout := timeout self;
     connected := true;
     last_message :=
       Some (if truthy sat_count
             then str_lit "RTCM " ++ str_of_int msg_type ++ str_lit " ("
                  ++ str_of_int n ++ str_lit " sats)"
             else str_lit "RTCM " ++ str_of_int msg_type);
     last_message_type := Some msg_type;
     message_types := track_message_type msg_type (message_types self);
     message_count := message_count self + 1;
     last_update := Some (snd now);
     connection_time :=
       if negb (connected self) then Some (fst now)
       else connection_time self;
     error_message := error_message self;
     satellite_count := satellite_count self;
     gps_satellites := gps;
     glonass_satellites := glonass;
     galileo_satellites := galileo;
     beidou_satellites := beidou;
     total_satellites :=
       if truthy sat_count then gps + glonass + galileo + beidou
       else total_satellites self;
     stop_event := stop_event self |}.

(** *** The loop of [_run]

    [_run] is followed from one suspension point to the next.  It waits
    either for the next item of the session ([Streaming]) or for the end of
    [asyncio.sleep(5)] ([Sleeping]); what wakes it up is an [event], and
    what it does on the way to the next suspension point is a list of
    [action]s.

    [_notify_listeners] calls the callbacks one after the other, unguarded,
    and the three [except] clauses await it: when a callback raises, its
    exception leaves the handler and [_run] with it, before the sleep.
    That is the event [ListenerRaised]; after [Failed] every callback has
    returned.  Callbacks are taken not to touch the coordinator. *)

Definition with_status (conn : bool) (err : option pystr) (stop : bool)
    (self : RTCMCoordinator) : RTCMCoordinator :=
  {| timeout := timeout self;
     connected := conn;
     last_message := last_message self;
     last_message_type := last_message_type self;
     message_types := message_types self;
     message_count := message_count self;
     last_update := last_update self;
     connection_time := connection_time self;
     error_message := err;
     satellite_count := satellite_count self;
     gps_satellites := gps_satellites self;
     glonass_satellites := glonass_satellites self;
     galileo_satellites := galileo_satellites self;
     beidou_satellites := beidou_satellites self;
     total_satellites := total_satellites self;
     stop_event := stop |}.

(** The text the three [except] clauses store in [error_message]. *)
Definition failure_text (e : exn) : pystr :=
  match e with
  | TimeoutError => str_lit "Connection timeout"
  | ConnectionError msg | OSError msg | OtherException msg => msg
  end.

(** Lines 156-170: [connected = False], [error_message = ...]. *)
Definition record_failure (e : exn) (self : RTCMCoordinator)
    : RTCMCoordinator :=
  with_status false (Some (failure_text e)) (stop_event self) self.

(** Lines 100-103: the loop test, [error_message = None], [connect]. *)
Definition loop_head (self : RTCMCoordinator)
    : RTCMCoordinator * phase * list action :=
  if stop_event self then (self, Finished, [])
  else (with_status (connected self) None false self, Streaming,
        [Connect (timeout self)]).

(** Lines 172-173, and the loop test when there is no sleep. *)
Definition after_session (self : RTCMCoordinator)
    : RTCMCoordinator * phase * list action :=
  if negb (stop_event self) then (self, Sleeping, [Sleep 5])
  else loop_head self.

Definition step (self : RTCMCoordinator) (ph : phase) (ev : event)
    : RTCMCoordinator * phase * list action :=
  match ph, ev with
  | Finished, _ => (self, Finished, [])
  | _, StopRequested =>
    (with_status (connected self) (error_message self) true self, ph, [])
  | _, Cancelled => (self, Finished, [])
  | Streaming, Yielded now msg_info =>
    if stop_event self then after_session self
    else (on_message now self msg_info, Streaming, [])
  | Streaming, Failed e =>
    let '(self', ph', actions) := after_session (record_failure e self) in
    (self', ph', Notify :: actions)
  | Streaming, ListenerRaised e => (record_failure e self, Finished, [Notify])
  | Sleeping, Woke => loop_head self
  | _, _ => (self, ph, [])
  end.

Fixpoint run_events (self : RTCMCoordinator) (ph : phase)
    (evs : list event) : RTCMCoordinator * phase * list action :=
  match evs with
  | [] => (self, ph, [])
  | ev :: evs' =>
    let '(self', ph', actions) := step self ph ev in
    let '(self'', ph'', actions') := run_events self' ph' evs' in
    (self'', ph'', actions ++ actions')
  end.

(** [RTCMCoordinator._run] from its start, through the events [evs]. *)
Definition _run (self : RTCMCoordinator) (evs : list event)
    : RTCMCoordinator * phase * list action :=
  let '(self', ph, actions) := loop_head self in
  let '(self'', ph', actions') := run_events self' ph evs in
  (self'', ph', actions ++ actions').

End Coordinator.

(** A [const.py] that sets [MAX_MESSAGE_TYPES] to [n]. *)
Definition const_py (n : Z) : Const := {| MAX_MESSAGE_TYPES := n |}.

(** ** Bit-level reading of a byte string

    The satellite-count fields are described by bit positions counted from
    the first (most significant) bit of a byte string.  These definitions
    spell that reading out; the extractors are compared with them. *)

(** The eight bits of a byte, most significant first. *)
Definition byte_bits (b : byte) : list bool :=
  let '(b0, (b1, (b2, (b3, (b4, (b5, (b6, b7))))))) := Byte.to_bits b in
  [b7; b6; b5; b4; b3; b2; b1; b0].

Definition bits_of_bytes (bs : list byte) : list bool :=
  flat_map byte_bits bs.

(** The unsigned number written by a bit string, first bit heaviest. *)
Definition bits_to_Z (bits : list bool) : Z :=
  fold_left (fun acc (b : bool) => 2 * acc + Z.b2z b) bits 0.

(** The [width]-bit field that starts [offset] bits into [bs]. *)
Definition bit_field (bs : list byte) (offset width : nat) : Z :=
  bits_to_Z (take width (drop offset (bits_of_bytes bs))).

(** The number of set bits of [bs]. *)
Definition count_set_bits (bs : list byte) : Z :=
  Z.of_nat (length (filter (fun b : bool => b = true) (bits_of_bytes bs))).

(** What both extractors do with a count: zero is reported as absent. *)
Definition nonzero_count (n : Z) : option Z :=
  if n =? 0 then None else Some n.

(** ** Vocabulary of the statements *)

(** A socket script whose reads raise nothing but timeouts: every
    failure of such a session is one that [connect] raises itself. *)
Definition socket_timeouts_only (reads : list read_result) : Prop :=
  Forall (fun r => match r with
                   | ReadRaises e => e = TimeoutError
                   | ReadData _ => True
                   end) reads.

(** Events that leave the loop alone: no stop request, no cancellation. *)
Definition no_stop (evs : list event) : Prop :=
  Forall (fun ev => ev <> StopRequested /\ ev <> Cancelled) evs.

(** Every notification of a failure returns: no callback raises. *)
Definition listeners_return (evs : list event) : Prop :=
  Forall (fun ev => forall e, ev <> ListenerRaised e) evs.

(** The first line of the server's response, as [connect] computes it. *)
Definition response_first_line (initial_data : list byte) : pystr :=
  strip (first_line_of (utf8_decode_ignore initial_data)).

(** ** Test vectors *)

(** A frame with declared payload length 20 (26 bytes in all) of which
    only the first 18 bytes have arrived. *)
Definition partial_frame_18 : list byte :=
  [xd3; x00; x14; x43; x50; x00; x01; x02; x03; x04; x05; x06; x07; x08;
   x09; x0a; x0b; x0c].

(** A GPS legacy observation frame, id 1003 ([0x3EB]): station id 0, epoch
    0, sync flag 0, and the 5-bit count [9 = 0b01001] at payload bits
    55..59; payload of 8 bytes, then three bytes of checksum. *)
Definition legacy_1003_frame : list byte :=
  [xd3; x00; x08; x3e; xb0; x00; x00; x00; x00; x00; x90; x00; x00; x00].

(** MSM7 frames, id 1077 ([0x435]), declared payload length 20.  Bytes
    11..18 of the first hold a mask with 7 set bits
    ([0x81 0x00 0x10 0x00 0x00 0x03 0x00 0x11]), of the second a mask that
    is all zero. *)
Definition msm_1077_frame : list byte :=
  [xd3; x00; x14; x43; x50; x00; x00; x00; x00; x00; x00;
   x81; x00; x10; x00; x00; x03; x00; x11;
   x00; x00; x00; x00; x00; x00; x00].

Definition msm_1077_zero_mask_frame : list byte :=
  [xd3; x00; x14; x43; x50; x00; x00; x00; x00; x00; x00;
   x00; x00; x00; x00; x00; x00; x00; x00;
   x00; x00; x00; x00; x00; x00; x00].

(** An id-1077 frame of 19 bytes (declared payload length 13): bytes
    11..18 are all there and hold the mask with 7 set bits. *)
Definition msm_1077_frame_19 : list byte :=
  [xd3; x00; x0d; x43; x50; x00; x00; x00; x00; x00; x00;
   x81; x00; x10; x00; x00; x03; x00; x11].

(** A QZSS MSM4 frame, id 1114 ([0x45A]), declared payload length 20,
    with the 7-bit mask in bytes 11..18. *)
Definition qzss_1114_frame : list byte :=
  [xd3; x00; x14; x45; xa0; x00; x00; x00; x00; x00; x00;
   x81; x00; x10; x00; x00; x03; x00; x11;
   x00; x00; x00; x00; x00; x00; x00].

(** A coordinator that has seen 9 GPS and 6 GLONASS satellites. *)
Definition sample_events : list event :=
  [ Yielded (100, 101) (MessageInfo 1077 20 (Some 9));
    Yielded (102, 103) (MessageInfo 1087 20 (Some 6)) ].

(** [b"HTTP/1.0 401 Unauthorized\r\n\r\n"] and [b"ICY 200 OK\r\n\r\n"]
    followed by the id-1077 frame. *)
Definition unauthorized_response : list byte :=
  bytes_lit "HTTP/1.0 401 Unauthorized" ++ [x0d; x0a; x0d; x0a].

Definition icy_ok_response : list byte :=
  bytes_lit "ICY 200 OK" ++ [x0d; x0a; x0d; x0a] ++ msm_1077_frame.

Definition sample_client : NTRIPClient :=
  {| host := str_lit "caster.example.org";
     port := 2101;
     mountpoint := str_lit "MOUNT";
     username := [];
     password := [] |}.

(** The two complete test frames one after the other, cut in three
    chunks that split both frames. *)
Definition sample_stream : list byte := msm_1077_frame ++ legacy_1003_frame.

Definition sample_chunks : list (list byte) :=
  [take 7 sample_stream; take 20 (drop 7 sample_stream);
   drop 27 sample_stream].

(** Four messages with four different ids. *)
Definition four_types_events : list event :=
  [ Yielded (100, 101) (MessageInfo 1077 20 (Some 9));
    Yielded (102, 103) (MessageInfo 1087 20 (Some 6));
    Yielded (104, 105) (MessageInfo 1097 20 (Some 5));
    Yielded (106, 107) (MessageInfo 1127 20 (Some 4)) ].

(** ** Vocabulary of the further statements *)

(** No byte of [l] is the marker. *)
Definition no_marker (l : list byte) : Prop :=
  Forall (fun b => byte_val b <> 0xD3) l.

(** The ranges a decoded message stays in: a 12-bit id, a 10-bit length,
    and a satellite count, when there is one, between 1 and 64. *)
Definition well_formed_message (m : message_info) : Prop :=
  0 <= info_id m <= 4095 /\
  0 <= info_length m <= 1023 /\
  forall n, info_satellites m = Some n -> 1 <= n <= 64.

(** The bytes the frames of [ms] take in a stream: payload, header and
    checksum. *)
Definition frames_bytes (ms : list message_info) : Z :=
  foldr (fun m acc => info_length m + 6 + acc) 0 ms.

(** [needle] occurs in [hay] as a contiguous run (of bytes, of
    characters). *)
Definition occurs {A} (needle hay : list A) : Prop :=
  exists before after, hay = before ++ needle ++ after.

(** How a session script ends: the read that closes it, by an empty read
    (the peer has closed) or by an exception of [reader.read]. *)
Definition final_read (r : read_result) : option exn :=
  match r with
  | ReadData [] => Some (ConnectionError (str_lit "Stream closed by server"))
  | ReadData (_ :: _) => None
  | ReadRaises e => Some e
  end.

(** [b"ICY 200 OK\r\n"] and [b"ICY 200 OK\n\n"], each followed by the
    id-1077 frame: a response without a blank line, and one whose blank
    line is written with bare line feeds. *)
Definition icy_no_blank_line_response : list byte :=
  bytes_lit "ICY 200 OK" ++ [x0d; x0a] ++ msm_1077_frame.

Definition icy_bare_lf_response : list byte :=
  bytes_lit "ICY 200 OK" ++ [x0a; x0a] ++ msm_1077_frame.

(** ** Listeners of the coordinator

    [self._listeners] is a list of callbacks; callbacks are compared with
    [==], here a decidable equality. *)

Section Listeners.

Context {callback : Type} `{EqDecision callback}.

(** [l.remove(x)] when [x in l]: the first item equal to [x] goes. *)
Fixpoint list_remove (x : callback) (l : list callback) : list callback :=
  match l with
  | [] => []
  | y :: l' => if decide (x = y) then l' else y :: list_remove x l'
  end.

(** [RTCMCoordinator.register_listener] *)
Definition register_listener (update_callback : callback)
    (_listeners : list callback) : list callback :=
  _listeners ++ [update_callback].

(** [RTCMCoordinator.remove_listener] *)
Definition remove_listener (update_callback : callback)
    (_listeners : list callback) : list callback :=
  if bool_decide (update_callback ∈ _listeners)
  then list_remove update_callback _listeners
  else _listeners.

End Listeners.

(** ** Sensors: what [sensor.py] and [binary_sensor.py] show of the
    coordinator *)

(** [sorted(l)] on integers: the ascending rearrangement of [l]. *)
Definition sorted (l : list Z) : list Z := merge_sort Z.le l.

(** [sep.join(parts)] *)
Fixpoint join (sep : pystr) (parts : list pystr) : pystr :=
  match parts with
  | [] => []
  | part :: parts' =>
    match parts' with
    | [] => part
    | _ :: _ => part ++ sep ++ join sep parts'
    end
  end.

(** [RTCMMessageTypesSensor.native_value] *)
Definition message_types_native_value (coordinator : RTCMCoordinator)
    : pystr :=
  match message_types coordinator with
  | [] => str_lit "None"
  | _ :: _ =>
    join (str_lit ",") (map str_of_int (sorted (message_types coordinator)))
  end.

(** [RTCMMessageTypesSensor.extra_state_attributes]:
    [message_types_list] and [unique_count]. *)
Definition message_types_attributes (coordinator : RTCMCoordinator)
    : list Z * Z :=
  (sorted (message_types coordinator),
   Z.of_nat (length (message_types coordinator))).

(** [RTCMLastMessageSensor.native_value]:
    [last_message or "No data"] ([None] and [""] are false). *)
Definition last_message_native_value (coordinator : RTCMCoordinator)
    : pystr :=
  match last_message coordinator with
  | None | Some [] => str_lit "No data"
  | Some (c :: s) => c :: s
  end.

(** [RTCMSatelliteCountSensor.extra_state_attributes]: the dict, in
    insertion order. *)
Definition satellite_attributes (coordinator : RTCMCoordinator)
    : list (string * Z) :=
  [("total_satellites"%string, total_satellites coordinator)]
  ++ (if 0 <? gps_satellites coordinator
      then [("gps"%string, gps_satellites coordinator)] else [])
  ++ (if 0 <? glonass_satellites coordinator
      then [("glonass"%string, glonass_satellites coordinator)] else [])
  ++ (if 0 <? galileo_satellites coordinator
      then [("galileo"%string, galileo_satellites coordinator)] else [])
  ++ (if 0 <? beidou_satellites coordinator
      then [("beidou"%string, beidou_satellites coordinator)] else []).

(** [RTCMConnectionBinarySensor.is_on] and the [last_error] entry of its
    [extra_state_attributes] (present when [error_message] is neither
    [None] nor [""]). *)
Definition is_on (coordinator : RTCMCoordinator) : bool :=
  connected coordinator.

Definition last_error_attribute (coordinator : RTCMCoordinator)
    : option pystr :=
  match error_message coordinator with
  | None | Some [] => None
  | Some (c :: s) => Some (c :: s)
  end.

(** ** Connection test of the configuration flow:
    [config_flow.validate_connection]

    The session is [client.connect(timeout=30)] on the reads that complete
    within the 45 seconds [asyncio.wait_for] allows; a session still
    waiting in a read when they are over ([Blocked]) is cancelled, which
    [wait_for] reports as a timeout. *)

Inductive validation :=
| Validated (title : pystr)      (* returns [{"title": data["name"]}] *)
| CannotConnect (msg : pystr).   (* raises [CannotConnect(msg)] *)

Definition validate_connection (name : pystr) (client : NTRIPClient)
    (opened : open_result) (reads : list read_result) : validation :=
  let timed_out :=
    CannotConnect
      (str_lit "Connection timeout - no RTCM data received within 45 seconds. Check if server is sending RTCM3 data.") in
  match connect client opened reads with
  | (msg_info :: _, _) => Validated name
  | ([], Blocked) => timed_out
  | ([], Raised TimeoutError) => timed_out
  | ([], Raised (ConnectionError err)) =>
    CannotConnect (str_lit "Connection failed: " ++ err)
  | ([], Raised (OSError err)) | ([], Raised (OtherException err)) =>
    CannotConnect (str_lit "Unexpected error: " ++ err)
  end.

(** ** Vocabulary for runs of the supervisor *)

(** The events of one session that yields [msgs] and then fails with
    [e], every callback returning from the notification, up to the end of
    the sleep that follows. *)
Definition yields (msgs : list (Z * Z * message_info)) : list event :=
  map (fun m => Yielded m.1 m.2) msgs.

Definition session_events (session : list (Z * Z * message_info) * exn)
    : list event :=
  yields session.1 ++ [Failed session.2; Woke].

(** Every message that the events carry is in the decoder's ranges. *)
Definition decoded_events (evs : list event) : Prop :=
  Forall (fun ev => match ev with
                    | Yielded _ msg_info => well_formed_message msg_info
                    | _ => True
                    end) evs.

(** What the coordinator has gathered from the messages: everything the
    sensors show apart from the connection status. *)
Definition statistics (c : RTCMCoordinator) :=
  (message_count c, message_types c, last_message c, last_message_type c,
   last_update c,
   (gps_satellites c, glonass_satellites c, galileo_satellites c,
    beidou_satellites c, total_satellites c)).

(** The actions of a run through [n] failed sessions: a connection attempt,
    then for every failure a notification, the sleep of 5 seconds and the
    next attempt. *)
Definition retry_actions (conf_timeout : Z) (n : nat) : list action :=
  Connect conf_timeout
  :: concat (replicate n [Notify; Sleep 5; Connect conf_timeout]).

(** A socket script none of whose chunks holds the marker. *)
Definition reads_without_marker (reads : list read_result) : Prop :=
  Forall (fun r => match r with
                   | ReadData data => no_marker data
                   | ReadRaises _ => True
                   end) reads.

(** ** YAML setup: the stream loop of [async_setup] in [__init__.py]

    A stream configuration is a dict from option names to values; the
    coordinators are kept in the dict [hass.data[DOMAIN]] under the name of
    their stream.  What the loop asks of Home Assistant is a list of
    actions. *)

Inductive conf_value :=
| VStr (s : pystr)
| VInt (n : Z).

#[global] Instance conf_value_eq_dec : EqDecision conf_value.
Proof. solve_decision. Defined.

#[global] Instance conf_value_countable : Countable conf_value :=
  inj_countable'
    (fun v => match v with VStr s => inl s | VInt n => inr n end)
    (fun x => match x with inl s => VStr s | inr n => VInt n end)
    (fun v => match v with VStr _ => eq_refl | VInt _ => eq_refl end).

Inductive setup_action :=
| StartCoordinator (name : conf_value) (stream_conf : gmap string conf_value)
| LoadPlatform (platform : string) (name : conf_value).

Inductive setup_outcome :=
| Returned (cleanup_registered : bool)  (* [return True] *)
| KeyError (key : string).              (* [stream_conf["name"]] fails *)

(** [[field for field in required_fields if field not in stream_conf]] *)
Definition missing_fields (stream_conf : gmap string conf_value)
    : list string :=
  filter (fun field => stream_conf !! field = None)
    ["host"; "port"; "mountpoint"]%string.

(** The [for stream_conf in streams] loop: the dict of coordinators (each
    stands for the configuration it was built from), the actions so far,
    and whether a [KeyError] has interrupted the loop. *)
Fixpoint setup_streams (streams : list (gmap string conf_value))
    (data : gmap conf_value (gmap string conf_value))
    : gmap conf_value (gmap string conf_value) * list setup_action
      * option string :=
  match streams with
  | [] => (data, [], None)
  | stream_conf :: streams' =>
    match stream_conf !! "name"%string with
    | None => (data, [], Some "name"%string)
    | Some name =>
      match missing_fields stream_conf with
      | _ :: _ => setup_streams streams' data
      | [] =>
        let '(data', actions, error) :=
          setup_streams streams' (<[name := stream_conf]> data) in
        (data',
         StartCoordinator name stream_conf
         :: LoadPlatform "sensor" name
         :: LoadPlatform "binary_sensor" name :: actions,
         error)
      end
    end
  end.

(** [async_setup], from the list [conf.get("streams", [])] on. *)
Definition async_setup (streams : list (gmap string conf_value))
    : gmap conf_value (gmap string conf_value) * list setup_action
      * setup_outcome :=
  match streams with
  | [] => (∅, [], Returned false)
  | _ :: _ =>
    let '(data, actions, error) := setup_streams streams ∅ in
    (data, actions,
     match error with
     | Some key => KeyError key
     | None => Returned true
     end)
  end.

(** The streams the loop sets up, and what it asks for each of them. *)
Definition complete (stream_conf : gmap string conf_value) : Prop :=
  is_Some (stream_conf !! "host"%string) /\
  is_Some (stream_conf !! "port"%string) /\
  is_Some (stream_conf !! "mountpoint"%string).

Definition named (stream_conf : gmap string conf_value) : Prop :=
  is_Some (stream_conf !! "name"%string).

Definition stream_actions (stream_conf : gmap string conf_value)
    : list setup_action :=
  match stream_conf !! "name"%string with
  | Some name =>
    [StartCoordinator name stream_conf; LoadPlatform "sensor" name;
     LoadPlatform "binary_sensor" name]
  | None => []
  end.

#[global] Instance complete_dec stream_conf : Decision (complete stream_conf).
Proof. unfold complete. apply _. Defined.

(** Two stream configurations of the same name, the first one without a
    port, and one without a name. *)
Definition stream_base (port : option Z) : gmap string conf_value :=
  let always : gmap string conf_value :=
    {[ "name"%string := VStr (str_lit "base");
       "host"%string := VStr (str_lit "caster.example.org");
       "mountpoint"%string := VStr (str_lit "MOUNT") ]} in
  match port with
  | Some n => <["port"%string := VInt n]> always
  | None => always
  end.

Definition stream_unnamed : gmap string conf_value :=
  {[ "host"%string := VStr (str_lit "caster.example.org");
     "port"%string := VInt 2101;
     "mountpoint"%string := VStr (str_lit "MOUNT") ]}.

(** * Properties *)

(** ** The frame decoder *)

Lemma declared_length_nonneg l : 0 <= declared_length l.
Proof.
  destruct l as [|b0 [|b1 [|b2 l]]]; simpl; try lia.
  apply Z.lor_nonneg. split.
  - apply Z.shiftl_nonneg, Z.land_nonneg. right. lia.
  - unfold byte_val. lia.
Qed.

Lemma frame_size_ge l : (6 <= frame_size l)%nat.
Proof. unfold frame_size. pose proof (declared_length_nonneg l). lia. Qed.

Lemma frame_size_lt l :
  (Z.of_nat (length l) <? declared_length l + 6) = true <->
  (length l < frame_size l)%nat.
Proof.
  unfold frame_size. pose proof (declared_length_nonneg l).
  rewrite Z.ltb_lt. lia.
Qed.

(** The loop computes the big-step relation, whatever the fuel above the
    number of unconsumed bytes: it stops by its own guard. *)
Lemma scan_frames_decodes fuel : forall buffer idx messages,
  (length buffer - idx <= fuel)%nat ->
  exists i ms,
    scan_frames fuel buffer idx messages = (i, messages ++ ms) /\
    Decodes (drop idx buffer) (drop i buffer) ms.
Proof.
  induction fuel as [|fuel IH]; intros buffer idx messages Hfuel.
  - exists idx, []. rewrite app_nil_r. split; [done|].
    rewrite drop_ge by lia. constructor. simpl. lia.
  - cbn [scan_frames].
    pose proof (length_drop buffer idx) as Hlen.
    destruct (drop idx buffer) as [|b0 [|b1 [|b2 [|b3 [|b4 [|b5 r]]]]]] eqn:Hd;
      try (exists idx, []; rewrite app_nil_r, Hd; split; [done|];
           constructor; simpl; lia).
    simpl in Hlen.
    set (l := b0 :: b1 :: b2 :: b3 :: b4 :: b5 :: r) in *.
    change (Z.lor (Z.shiftl (Z.land (byte_val b1) 3) 8) (byte_val b2))
      with (declared_length l).
    change (Z.lor (Z.shiftl (byte_val b3) 4) (Z.shiftr (byte_val b4) 4))
      with (frame_id l).
    destruct (byte_val b0 =? 0xD3) eqn:Hb0; cbn [negb].
    + apply Z.eqb_eq in Hb0.
      assert (Hll : length l = (length buffer - idx)%nat) by (simpl; lia).
      rewrite <- Hll.
      destruct (Z.of_nat (length l) <? declared_length l + 6) eqn:Hc.
      * exists idx, []. rewrite app_nil_r, Hd. split; [done|].
        apply Decodes_wait; [simpl; lia|exact Hb0|by apply frame_size_lt].
      * assert (Hfit : (frame_size l <= length l)%nat).
        { destruct (decide (length l < frame_size l)%nat) as [Hlt|]; [|lia].
          apply frame_size_lt in Hlt. congruence. }
        pose proof (frame_size_ge l) as Hge.
        fold (frame_size l).
        destruct (IH buffer (idx + frame_size l)%nat
                    (messages ++ [MessageInfo (frame_id l) (declared_length l)
                       (_parse_msm_satellite_count
                          (slice idx (idx + frame_size l) buffer) (frame_id l))]))
          as (i & ms & Heq & HD); [lia|].
        exists i, (frame_message l :: ms). split.
        -- rewrite Heq, <- app_assoc. cbn [app]. unfold frame_message, slice.
           replace (idx + frame_size l - idx)%nat with (frame_size l) by lia.
           by rewrite Hd.
        -- apply Decodes_frame; [simpl; lia|exact Hb0|exact Hfit|].
           rewrite <- drop_drop, Hd in HD. exact HD.
    + apply Z.eqb_neq in Hb0.
      destruct (IH buffer (idx + 1)%nat messages) as (i & ms & Heq & HD); [lia|].
      exists i, ms. split; [exact Heq|].
      apply Decodes_skip; [simpl; lia|exact Hb0|].
      assert (Hd1 : drop (idx + 1) buffer = drop 1 (drop idx buffer))
        by (by rewrite drop_drop).
      rewrite Hd in Hd1. simpl in Hd1.
      rewrite <- Hd1. exact HD.
Qed.

Lemma at_marker_cons b l : at_marker (b :: l) <-> byte_val b = 0xD3.
Proof. reflexivity. Qed.

Lemma Decodes_det l r1 m1 :
  Decodes l r1 m1 -> forall r2 m2, Decodes l r2 m2 -> r1 = r2 /\ m1 = m2.
Proof.
  induction 1 as [l Hl|b l rem ms Hl Hb _ IH|l Hl Hm Hw|l rem ms Hl Hm Hf _ IH];
    intros r2 m2 H2; inversion H2; subst; simpl in *;
    try done; try lia; try (by apply IH).
  destruct (IH _ _ ltac:(eassumption)) as [-> ->]. done.
Qed.

Lemma decode_Decodes l : Decodes l (decode l).1 (decode l).2.
Proof.
  unfold decode.
  destruct (scan_frames_decodes (length l) l 0 []) as (i & ms & Heq & HD);
    [lia|].
  rewrite Heq. exact HD.
Qed.

Lemma Decodes_decode l r m : Decodes l r m -> decode l = (r, m).
Proof.
  intros H. destruct (Decodes_det _ _ _ H _ _ (decode_Decodes l)) as [-> ->].
  by destruct (decode l).
Qed.

Lemma process_buffer_decode buffer :
  _process_buffer buffer = decode (trim_to_marker buffer).
Proof. reflexivity. Qed.

(** Equations of the decoder, one per way an iteration can go. *)
Lemma decode_short l : (length l < 6)%nat -> decode l = (l, []).
Proof. intros. by apply Decodes_decode, Decodes_short. Qed.

Lemma decode_skip b l :
  (6 <= length (b :: l))%nat -> byte_val b <> 0xD3 ->
  decode (b :: l) = decode l.
Proof.
  intros Hl Hb. pose proof (decode_Decodes l) as HD.
  rewrite (Decodes_decode _ _ _ (Decodes_skip _ _ _ _ Hl Hb HD)).
  by destruct (decode l).
Qed.

Lemma decode_wait l :
  at_marker l -> (length l < frame_size l)%nat -> decode l = (l, []).
Proof.
  intros Hm Hw. destruct (decide (length l < 6)%nat).
  - by apply decode_short.
  - apply Decodes_decode, Decodes_wait; [lia|done..].
Qed.

Lemma decode_frame l :
  at_marker l -> (frame_size l <= length l)%nat ->
  decode l = ((decode (drop (frame_size l) l)).1,
              frame_message l :: (decode (drop (frame_size l) l)).2).
Proof.
  intros Hm Hf. pose proof (frame_size_ge l).
  apply Decodes_decode, Decodes_frame; [lia|done..|apply decode_Decodes].
Qed.

(** *** Trimming to the marker *)

Lemma trim_to_marker_at_marker l : at_marker l -> trim_to_marker l = l.
Proof.
  destruct l as [|b l]; [done|]. simpl. intros ->. reflexivity.
Qed.

Lemma trim_to_marker_spec l :
  trim_to_marker l = [] \/ at_marker (trim_to_marker l).
Proof.
  induction l as [|b l IH]; [by left|]. simpl.
  destruct (byte_val b =? 0xD3) eqn:Hb; [|exact IH].
  right. by apply Z.eqb_eq in Hb.
Qed.

Lemma trim_to_marker_idemp l :
  trim_to_marker (trim_to_marker l) = trim_to_marker l.
Proof.
  destruct (trim_to_marker_spec l) as [->|H]; [done|].
  by apply trim_to_marker_at_marker.
Qed.

Lemma trim_to_marker_length l : (length (trim_to_marker l) <= length l)%nat.
Proof.
  induction l as [|b l IH]; [done|]. simpl.
  destruct (byte_val b =? 0xD3); simpl; lia.
Qed.

Lemma trim_to_marker_app a b :
  trim_to_marker (a ++ b) =
  match trim_to_marker a with
  | [] => trim_to_marker b
  | _ => trim_to_marker a ++ b
  end.
Proof.
  induction a as [|x a IH]; [done|]. simpl.
  destruct (byte_val x =? 0xD3); [done|exact IH].
Qed.

(** Skipping non-marker bytes inside the main loop finds the same
    messages as trimming them first. *)
Lemma decode_trim_messages l :
  (decode (trim_to_marker l)).2 = (decode l).2.
Proof.
  induction l as [|b l IH]; [done|]. simpl.
  destruct (byte_val b =? 0xD3) eqn:Hb; [done|].
  apply Z.eqb_neq in Hb.
  destruct (decide (6 <= length (b :: l))%nat) as [Hl|Hl].
  - by rewrite decode_skip.
  - pose proof (trim_to_marker_length l). simpl in Hl.
    rewrite !decode_short; simpl; [done|lia..].
Qed.

(** The remaining buffer of a decoder call holds no complete frame. *)
Lemma Decodes_rem_quiescent l r m : Decodes l r m -> (decode r).2 = [].
Proof.
  induction 1; try done.
  - by rewrite decode_short.
  - by rewrite decode_wait.
Qed.

(** *** Appending data behind a buffer *)

Lemma header_app a b :
  (5 <= length a)%nat ->
  declared_length (a ++ b) = declared_length a /\
  frame_id (a ++ b) = frame_id a /\
  frame_size (a ++ b) = frame_size a /\
  (at_marker a -> at_marker (a ++ b)).
Proof.
  destruct a as [|a0 [|a1 [|a2 [|a3 [|a4 a]]]]]; simpl; try lia. done.
Qed.

Lemma frame_message_app a b :
  (5 <= length a)%nat -> (frame_size a <= length a)%nat ->
  frame_message (a ++ b) = frame_message a.
Proof.
  intros H5 Hf. destruct (header_app a b H5) as (Hd & Hi & Hs & _).
  unfold frame_message. rewrite Hd, Hi, Hs. by rewrite take_app_le.
Qed.

(** Decoding [a ++ b] finds the frames of [a], then those found when the
    remaining buffer of [a] is decoded again with [b] behind it. *)
Lemma Decodes_app a r m :
  Decodes a r m ->
  forall b, (decode (a ++ b)).2 = m ++ (decode (trim_to_marker (r ++ b))).2.
Proof.
  induction 1 as [l Hl|x l rem ms Hl Hx _ IH|l Hl Hm Hw|l rem ms Hl Hm Hf _ IH];
    intros b.
  - by rewrite decode_trim_messages.
  - rewrite <- app_comm_cons, decode_skip; [apply IH| |done].
    simpl in *. rewrite length_app. lia.
  - by rewrite decode_trim_messages.
  - destruct (header_app l b ltac:(lia)) as (_ & _ & Hs & Hma).
    rewrite decode_frame; [|by apply Hma|rewrite Hs, length_app; lia].
    cbn [snd]. rewrite frame_message_app by (done || lia).
    rewrite Hs, drop_app_le by done.
    by rewrite IH.
Qed.

Lemma process_buffer_app x y :
  (_process_buffer (x ++ y)).2 =
  (_process_buffer x).2 ++ (_process_buffer ((_process_buffer x).1 ++ y)).2.
Proof.
  rewrite !process_buffer_decode, trim_to_marker_app.
  destruct (trim_to_marker x) as [|t0 t] eqn:Ht.
  - change (decode []) with (@nil byte, @nil message_info). done.
  - apply Decodes_app, decode_Decodes.
Qed.

Lemma process_buffer_rem_quiescent x :
  (_process_buffer (_process_buffer x).1).2 = [].
Proof.
  rewrite !process_buffer_decode, decode_trim_messages.
  eapply Decodes_rem_quiescent, decode_Decodes.
Qed.

Lemma feed_chunks_from buffer chunks :
  (_process_buffer buffer).2 = [] ->
  feed_chunks buffer chunks = (_process_buffer (buffer ++ concat chunks)).2.
Proof.
  revert buffer. induction chunks as [|data chunks IH]; intros buffer Hq.
  - simpl. by rewrite app_nil_r, Hq.
  - simpl. rewrite app_assoc, process_buffer_app.
    destruct (_process_buffer (buffer ++ data)) as [buffer' messages] eqn:Hp.
    cbn [fst snd]. f_equal. apply IH.
    replace buffer' with (_process_buffer (buffer ++ data)).1 by (by rewrite Hp).
    apply process_buffer_rem_quiescent.
Qed.

Lemma read_loop_process buffer reads :
  read_loop buffer reads
  = let '(buffer', messages) := _process_buffer buffer in
    match reads with
    | [] => (messages, Blocked)
    | ReadRaises e :: _ => (messages, Raised e)
    | ReadData [] :: _ =>
      (messages, Raised (ConnectionError (str_lit "Stream closed by server")))
    | ReadData data :: reads' =>
      let '(more, ending) := read_loop (buffer' ++ data) reads' in
      (messages ++ more, ending)
    end.
Proof. destruct reads; by destruct buffer. Qed.

Lemma read_loop_feed_chunks chunks : forall buffer,
  Forall (fun data => data <> []) chunks ->
  (read_loop buffer (map ReadData chunks)).1
  = (_process_buffer buffer).2
    ++ feed_chunks (_process_buffer buffer).1 chunks.
Proof.
  induction chunks as [|data chunks IH]; intros buffer Hne;
    rewrite read_loop_process;
    destruct (_process_buffer buffer) as [buffer' messages]; cbn [map fst snd].
  - by rewrite app_nil_r.
  - apply Forall_cons in Hne as [Hdata Hne].
    destruct data as [|d data]; [done|].
    specialize (IH (buffer' ++ d :: data) Hne).
    destruct (read_loop (buffer' ++ d :: data) (map ReadData chunks))
      as [more ending].
    cbn [fst] in *. rewrite IH. cbn [feed_chunks].
    by destruct (_process_buffer (buffer' ++ d :: data)).
Qed.

(** C1. Buffer-boundary independence: however a byte stream is cut into
    consecutive chunks, decoding chunk after chunk (every call's remaining
    buffer put in front of the next chunk) gives the same list of messages,
    in the same order, as one [_process_buffer] call on the whole stream.
    The read loop of [connect], fed the chunks one read at a time, yields
    that same list. *)
Theorem process_buffer_boundary_independent (chunks : list (list byte)) :
  feed_chunks [] chunks = (_process_buffer (concat chunks)).2 /\
  (Forall (fun data => data <> []) chunks ->
   forall buffer,
     (read_loop buffer (map ReadData chunks)).1
     = (_process_buffer (buffer ++ concat chunks)).2).
Proof.
  split; [by rewrite feed_chunks_from|].
  intros Hne buffer.
  rewrite read_loop_feed_chunks, process_buffer_app by done.
  f_equal. apply feed_chunks_from, process_buffer_rem_quiescent.
Qed.

(** Two frames cut in three chunks, both frames split. *)
Lemma process_buffer_boundary_independent_witness :
  Forall (fun data => data <> []) sample_chunks /\
  concat sample_chunks = sample_stream /\
  feed_chunks [] sample_chunks
  = [MessageInfo 1077 20 (Some 7); MessageInfo 1003 8 (Some 9)] /\
  (read_loop [] (map ReadData sample_chunks)).1
  = (_process_buffer sample_stream).2.
Proof.
  assert (Hne : Forall (fun data => data <> []) sample_chunks)
    by (repeat constructor; discriminate).
  destruct (process_buffer_boundary_independent sample_chunks)
    as [Hfeed Hloop].
  split; [exact Hne|]. split; [reflexivity|].
  split; [rewrite Hfeed; vm_compute; reflexivity|].
  exact (Hloop Hne []).
Defined.

(** C6. Incomplete-frame retention: a buffer that starts at a marker and
    holds fewer bytes than the declared payload length plus six gives no
    message and comes back whole as the remaining buffer. *)
Theorem process_buffer_incomplete_frame (buffer : list byte) :
  at_marker buffer ->
  Z.of_nat (length buffer) < declared_length buffer + 6 ->
  _process_buffer buffer = (buffer, []).
Proof.
  intros Hm Hlt. rewrite process_buffer_decode, trim_to_marker_at_marker by done.
  apply decode_wait; [done|]. by apply frame_size_lt, Z.ltb_lt.
Qed.

(** C7. Idempotence on a quiescent buffer: when a call finds no complete
    frame, a second call on its remaining buffer returns that buffer
    unchanged, with no message. *)
Theorem process_buffer_idempotent (buffer : list byte) :
  (_process_buffer buffer).2 = [] ->
  _process_buffer (_process_buffer buffer).1 = ((_process_buffer buffer).1, []).
Proof.
  rewrite !process_buffer_decode. intros Hq.
  pose proof (decode_Decodes (trim_to_marker buffer)) as HD.
  rewrite Hq in HD.
  assert (Hrem : (decode (trim_to_marker buffer)).1 = trim_to_marker buffer).
  { destruct (trim_to_marker_spec buffer) as [Ht|Ht].
    - rewrite Ht. by rewrite decode_short by (simpl; lia).
    - inversion HD as [| b l rem ms Hl Hb HD' Hlb | |]; subst; try done.
      rewrite <- Hlb in Ht. simpl in Ht. done. }
  rewrite Hrem, trim_to_marker_idemp.
  rewrite <- Hrem at 2. rewrite <- Hq. by destruct (decode _).
Qed.

(** Eighteen bytes of a frame that declares a payload of 20. *)
Lemma process_buffer_incomplete_frame_witness :
  at_marker partial_frame_18 /\
  Z.of_nat (length partial_frame_18) < declared_length partial_frame_18 + 6 /\
  length partial_frame_18 = 18%nat /\
  declared_length partial_frame_18 = 20 /\
  _process_buffer partial_frame_18 = (partial_frame_18, []).
Proof.
  split; [reflexivity|]. split; [reflexivity|].
  split; [reflexivity|]. split; [reflexivity|].
  apply (process_buffer_incomplete_frame partial_frame_18); reflexivity.
Defined.

(** The same eighteen bytes, decoded twice. *)
Lemma process_buffer_idempotent_witness :
  (_process_buffer partial_frame_18).2 = [] /\
  _process_buffer (_process_buffer partial_frame_18).1
    = ((_process_buffer partial_frame_18).1, []).
Proof.
  split; [vm_compute; reflexivity|].
  apply (process_buffer_idempotent partial_frame_18). vm_compute. reflexivity.
Defined.

(** ** Bit strings and the integers read from them *)

Lemma byte_bits_val acc b :
  fold_left (fun acc (b : bool) => 2 * acc + Z.b2z b) (byte_bits b) acc
  = acc * 256 + byte_val b.
Proof. destruct b; cbn; lia. Qed.

Lemma byte_bits_length b : length (byte_bits b) = 8%nat.
Proof. by destruct b. Qed.

Lemma bits_of_bytes_length bs :
  length (bits_of_bytes bs) = (8 * length bs)%nat.
Proof.
  induction bs as [|b bs IH]; [done|].
  unfold bits_of_bytes in *. cbn [flat_map].
  rewrite length_app, byte_bits_length, IH. simpl. lia.
Qed.

Lemma bits_acc_split bits : forall acc,
  fold_left (fun acc (b : bool) => 2 * acc + Z.b2z b) bits acc
  = acc * 2 ^ Z.of_nat (length bits) + bits_to_Z bits.
Proof.
  unfold bits_to_Z.
  induction bits as [|b bits IH]; intros acc; [simpl; lia|].
  cbn [fold_left length]. rewrite IH, (IH (2 * 0 + Z.b2z b)).
  rewrite Nat2Z.inj_succ, Z.pow_succ_r by lia. lia.
Qed.

Lemma bits_to_Z_bounds bits :
  0 <= bits_to_Z bits < 2 ^ Z.of_nat (length bits).
Proof.
  induction bits as [|b bits IH]; [simpl; unfold bits_to_Z; simpl; lia|].
  unfold bits_to_Z in *. cbn [fold_left length].
  rewrite bits_acc_split. fold (bits_to_Z bits) in *.
  unfold bits_to_Z in *.
  rewrite Nat2Z.inj_succ, Z.pow_succ_r by lia.
  destruct b; simpl Z.b2z; lia.
Qed.

Lemma bits_to_Z_app xs ys :
  bits_to_Z (xs ++ ys) = bits_to_Z xs * 2 ^ Z.of_nat (length ys) + bits_to_Z ys.
Proof.
  unfold bits_to_Z at 1. rewrite fold_left_app.
  fold (bits_to_Z xs). apply bits_acc_split.
Qed.

Lemma int_from_bytes_big_bits bs :
  int_from_bytes_big bs = bits_to_Z (bits_of_bytes bs).
Proof.
  unfold int_from_bytes_big, bits_to_Z, bits_of_bytes.
  generalize 0. induction bs as [|b bs IH]; intros acc; [done|].
  cbn [flat_map fold_left]. by rewrite fold_left_app, byte_bits_val, IH.
Qed.

(** Shifting right and masking reads the field at a bit offset. *)
Lemma shift_mask_bit_field bits (offset width : nat) :
  (offset + width <= length bits)%nat ->
  Z.land (Z.shiftr (bits_to_Z bits)
                   (Z.of_nat (length bits) - Z.of_nat offset - Z.of_nat width))
         (Z.ones (Z.of_nat width))
  = bits_to_Z (take width (drop offset bits)).
Proof.
  intros Hlen.
  rewrite <- (take_drop offset bits) at 1.
  rewrite <- (take_drop width (drop offset bits)) at 1.
  set (A := take offset bits). set (F := take width (drop offset bits)).
  set (R := drop width (drop offset bits)).
  assert (HR : Z.of_nat (length R)
               = Z.of_nat (length bits) - Z.of_nat offset - Z.of_nat width).
  { unfold R. rewrite !length_drop. lia. }
  assert (HF : length F = width).
  { unfold F. rewrite length_take, length_drop. lia. }
  rewrite <- HR, app_assoc, !bits_to_Z_app, HF.
  pose proof (bits_to_Z_bounds R) as HbR.
  pose proof (bits_to_Z_bounds F) as HbF. rewrite HF in HbF.
  rewrite Z.land_ones, Z.shiftr_div_pow2 by lia.
  rewrite Z.div_add_l by lia.
  rewrite (Z.div_small (bits_to_Z R)), Z.add_0_r by lia.
  rewrite Z.add_comm, Z.mod_add by lia.
  apply Z.mod_small. lia.
Qed.

Lemma bin_count_ones_step acc (b : bool) :
  0 <= acc ->
  bin_count_ones (2 * acc + Z.b2z b) = bin_count_ones acc + Z.b2z b.
Proof.
  intros Hacc. destruct acc as [|p|p]; [by destruct b| |lia].
  destruct b.
  - change (2 * Z.pos p + Z.b2z true) with (Z.pos p~1). simpl. lia.
  - change (2 * Z.pos p + Z.b2z false) with (Z.pos p~0). simpl. lia.
Qed.

Lemma bin_count_ones_bits bits : forall acc,
  0 <= acc ->
  bin_count_ones (fold_left (fun acc (b : bool) => 2 * acc + Z.b2z b) bits acc)
  = bin_count_ones acc
    + Z.of_nat (length (filter (fun b : bool => b = true) bits)).
Proof.
  induction bits as [|b bits IH]; intros acc Hacc; [simpl; lia|].
  cbn [fold_left]. rewrite IH by (destruct b; simpl; lia).
  rewrite bin_count_ones_step by done.
  destruct b.
  - rewrite filter_cons_True by done. simpl length. simpl Z.b2z. lia.
  - rewrite filter_cons_False by done. simpl Z.b2z. lia.
Qed.

Lemma bin_count_ones_from_bytes bs :
  bin_count_ones (int_from_bytes_big bs) = count_set_bits bs.
Proof.
  rewrite int_from_bytes_big_bits. unfold bits_to_Z, count_set_bits.
  by rewrite bin_count_ones_bits.
Qed.

Lemma count_set_bits_nonneg bs : 0 <= count_set_bits bs.
Proof. unfold count_set_bits. lia. Qed.

(** ** The satellite-count extractors *)

Lemma in_legacy_obs_messages_spec msg_id :
  in_legacy_obs_messages msg_id = true <->
  1001 <= msg_id <= 1004 \/ 1009 <= msg_id <= 1012.
Proof.
  unfold in_legacy_obs_messages, legacy_obs_messages.
  cbn [existsb fst]. rewrite !orb_true_iff, !Z.eqb_eq. lia.
Qed.

Lemma is_msm_spec msg_id :
  is_msm msg_id = true <->
  1074 <= msg_id <= 1077 \/ 1084 <= msg_id <= 1087 \/
  1094 <= msg_id <= 1097 \/ 1114 <= msg_id <= 1117 \/
  1124 <= msg_id <= 1127.
Proof.
  unfold is_msm, msm_ranges. cbn [existsb fst snd].
  rewrite !orb_true_iff, !andb_true_iff, !Z.leb_le. lia.
Qed.

(** C2. Legacy observation satellite count: for an id in 1001-1004 or
    1009-1012 and a frame of at least 11 bytes, the extractor reads the
    5-bit field that starts 55 bits (1001-1004) or 52 bits (1009-1012) into
    the payload, taken from the payload's leading 8 bytes; the field lies in
    0..31, the value 0 is reported as absent and every other value is
    returned unchanged.  The dispatching extractor gives the same. *)
Theorem parse_legacy_obs_satellite_count_field
    (message : list byte) (msg_id : Z) :
  1001 <= msg_id <= 1004 \/ 1009 <= msg_id <= 1012 ->
  (11 <= length message)%nat ->
  let payload := drop 3 message in
  let offset := if decide (msg_id <= 1004) then 55%nat else 52%nat in
  let field := bit_field (take 8 payload) offset 5 in
  0 <= field <= 31 /\
  _parse_legacy_obs_satellite_count message msg_id = nonzero_count field /\
  _parse_msm_satellite_count message msg_id = nonzero_count field.
Proof.
  intros Hid Hlen payload offset field.
  assert (Hbits : length (bits_of_bytes (take 8 payload)) = 64%nat).
  { rewrite bits_of_bytes_length, length_take. unfold payload.
    rewrite length_drop. lia. }
  assert (Hfield : 0 <= field <= 31).
  { unfold field, bit_field.
    pose proof (bits_to_Z_bounds
                  (take 5 (drop offset (bits_of_bytes (take 8 payload))))) as Hb.
    rewrite length_take, length_drop, Hbits in Hb.
    replace (5 `min` (64 - offset))%nat with 5%nat in Hb
      by (unfold offset; destruct (decide _); lia).
    change (2 ^ Z.of_nat 5) with 32 in Hb. lia. }
  assert (Hleg : _parse_legacy_obs_satellite_count message msg_id
                 = nonzero_count field).
  { unfold _parse_legacy_obs_satellite_count.
    destruct (Nat.ltb_spec (length message) 10); [lia|].
    change (slice 3 11 message) with (take 8 payload).
    destruct (Nat.ltb_spec (length (take 8 payload)) 8) as [Hs|_].
    { rewrite length_take in Hs. unfold payload in Hs.
      rewrite length_drop in Hs. lia. }
    rewrite int_from_bytes_big_bits.
    assert (Hsc : Z.land
              (Z.shiftr (bits_to_Z (bits_of_bytes (take 8 payload)))
                 (64 - (if (1009 <=? msg_id) && (msg_id <=? 1012)
                        then 52 else 55) - 5)) 0x1F = field).
    { unfold field, bit_field.
      rewrite <- shift_mask_bit_field by (rewrite Hbits; unfold offset;
                                          destruct (decide _); lia).
      rewrite Hbits. change (Z.ones (Z.of_nat 5)) with 31.
      do 2 f_equal. unfold offset.
      destruct (decide (msg_id <= 1004)).
      - destruct (Z.leb_spec 1009 msg_id); [lia|]. reflexivity.
      - destruct (Z.leb_spec 1009 msg_id); [|lia].
        destruct (Z.leb_spec msg_id 1012); [|lia]. reflexivity. }
    rewrite Hsc. unfold nonzero_count.
    destruct (Z.leb_spec 0 field); [|lia].
    destruct (Z.leb_spec field 64); [|lia]. cbn [andb].
    destruct (Z.ltb_spec 0 field), (Z.eqb_spec field 0); done || lia. }
  split; [exact Hfield|]. split; [exact Hleg|].
  unfold _parse_msm_satellite_count.
  apply in_legacy_obs_messages_spec in Hid. by rewrite Hid.
Qed.

(** The id-1003 frame that carries the count 9. *)
Lemma parse_legacy_obs_satellite_count_field_witness :
  (1001 <= 1003 <= 1004 \/ 1009 <= 1003 <= 1012) /\
  (11 <= length legacy_1003_frame)%nat /\
  bit_field (take 8 (drop 3 legacy_1003_frame)) 55 5 = 9 /\
  _parse_legacy_obs_satellite_count legacy_1003_frame 1003 = Some 9 /\
  _parse_msm_satellite_count legacy_1003_frame 1003 = Some 9 /\
  _process_buffer legacy_1003_frame = ([], [MessageInfo 1003 8 (Some 9)]).
Proof.
  assert (Hid : 1001 <= 1003 <= 1004 \/ 1009 <= 1003 <= 1012) by lia.
  assert (Hlen : (11 <= length legacy_1003_frame)%nat) by (simpl; lia).
  pose proof (parse_legacy_obs_satellite_count_field
                legacy_1003_frame 1003 Hid Hlen) as (_ & Hleg & Hmsm).
  split; [exact Hid|]. split; [exact Hlen|].
  split; [reflexivity|].
  split; [rewrite Hleg; reflexivity|].
  split; [rewrite Hmsm; reflexivity|].
  vm_compute. reflexivity.
Defined.

Lemma msm_not_legacy msg_id :
  is_msm msg_id = true -> in_legacy_obs_messages msg_id = false.
Proof.
  rewrite is_msm_spec. intros Hid.
  destruct (in_legacy_obs_messages msg_id) eqn:Hleg; [|done].
  apply in_legacy_obs_messages_spec in Hleg. lia.
Qed.

(** C3 (as amended). MSM satellite count: for an id in one of the windows
    1074-1077, 1084-1087, 1094-1097, 1114-1117, 1124-1127 the extractor
    returns absent when the frame has fewer than 20 bytes; for a frame of at
    least 20 bytes it returns the number of set bits among bytes 11..18 of
    the frame, or absent when that number is zero. *)
Theorem parse_msm_satellite_count_mask (message : list byte) (msg_id : Z) :
  1074 <= msg_id <= 1077 \/ 1084 <= msg_id <= 1087 \/
  1094 <= msg_id <= 1097 \/ 1114 <= msg_id <= 1117 \/
  1124 <= msg_id <= 1127 ->
  ((length message < 20)%nat ->
   _parse_msm_satellite_count message msg_id = None) /\
  ((20 <= length message)%nat ->
   _parse_msm_satellite_count message msg_id
   = nonzero_count (count_set_bits (slice 11 19 message))).
Proof.
  intros Hid. apply is_msm_spec in Hid.
  unfold _parse_msm_satellite_count.
  rewrite (msm_not_legacy _ Hid), Hid. cbn [negb orb].
  split; intros Hlen.
  - destruct (Nat.ltb_spec (length message) 14); [done|].
    destruct (Nat.ltb_spec (length message) 20); [done|lia].
  - destruct (Nat.ltb_spec (length message) 14); [lia|].
    destruct (Nat.ltb_spec (length message) 20); [lia|].
    rewrite bin_count_ones_from_bytes. unfold nonzero_count.
    pose proof (count_set_bits_nonneg (slice 11 19 message)).
    destruct (Z.ltb_spec 0 (count_set_bits (slice 11 19 message))),
      (Z.eqb_spec (count_set_bits (slice 11 19 message)) 0); done || lia.
Qed.

(** The id-1077 frames: a mask with 7 set bits, and the empty mask. *)
Lemma parse_msm_satellite_count_mask_witness :
  (1074 <= 1077 <= 1077 \/ 1084 <= 1077 <= 1087 \/
   1094 <= 1077 <= 1097 \/ 1114 <= 1077 <= 1117 \/
   1124 <= 1077 <= 1127) /\
  count_set_bits (slice 11 19 msm_1077_frame) = 7 /\
  _parse_msm_satellite_count msm_1077_frame 1077 = Some 7 /\
  _process_buffer msm_1077_frame = ([], [MessageInfo 1077 20 (Some 7)]) /\
  count_set_bits (slice 11 19 msm_1077_zero_mask_frame) = 0 /\
  _parse_msm_satellite_count msm_1077_zero_mask_frame 1077 = None.
Proof.
  assert (Hid : 1074 <= 1077 <= 1077 \/ 1084 <= 1077 <= 1087 \/
                1094 <= 1077 <= 1097 \/ 1114 <= 1077 <= 1117 \/
                1124 <= 1077 <= 1127) by lia.
  pose proof (parse_msm_satellite_count_mask msm_1077_frame 1077 Hid)
    as [_ Hseven].
  pose proof (parse_msm_satellite_count_mask msm_1077_zero_mask_frame 1077 Hid)
    as [_ Hzero].
  split; [exact Hid|]. split; [reflexivity|].
  split; [rewrite Hseven by (simpl; lia); reflexivity|].
  split; [vm_compute; reflexivity|].
  split; [reflexivity|].
  rewrite Hzero by (simpl; lia). reflexivity.
Defined.

(** C3 as stated fails on a 19-byte frame: bytes 11..18 are all present
    and hold 7 set bits, yet the extractor reports absent, because it asks
    for 20 bytes. *)
Lemma parse_msm_satellite_count_19_bytes :
  length msm_1077_frame_19 = 19%nat /\
  count_set_bits (slice 11 19 msm_1077_frame_19) = 7 /\
  _parse_msm_satellite_count msm_1077_frame_19 1077 = None /\
  _process_buffer msm_1077_frame_19 = ([], [MessageInfo 1077 13 None]) /\
  ~ (forall (message : list byte) (msg_id : Z),
       1074 <= msg_id <= 1077 ->
       (19 <= length message)%nat ->
       _parse_msm_satellite_count message msg_id
       = nonzero_count (count_set_bits (slice 11 19 message))).
Proof.
  split; [reflexivity|]. split; [reflexivity|]. split; [reflexivity|].
  split; [vm_compute; reflexivity|].
  intros H. specialize (H msm_1077_frame_19 1077 ltac:(lia) ltac:(simpl; lia)).
  vm_compute in H. discriminate H.
Qed.

(** ** The transport session *)

Lemma check_response_failure_text initial_data e :
  check_response initial_data = inl e -> failure_text e <> [].
Proof.
  unfold check_response. destruct initial_data as [|b bs]; [by intros [= <-]|].
  destruct (negb _); [by intros [= <-]|discriminate].
Qed.

Lemma read_loop_failure_text reads : forall buffer msgs e,
  socket_timeouts_only reads ->
  read_loop buffer reads = (msgs, Raised e) -> failure_text e <> [].
Proof.
  induction reads as [|r reads IH]; intros buffer msgs e Hreads; simpl.
  - by destruct (match buffer with [] => _ | _ => _ end).
  - apply Forall_cons in Hreads as [Hr Hreads].
    destruct (match buffer with [] => _ | _ => _ end) as [buffer' messages].
    destruct r as [[|d data]|e'].
    + by intros [= _ <-].
    + destruct (read_loop (buffer' ++ d :: data) reads) as [more ending] eqn:Hl.
      intros [= _ ->]. by eapply IH.
    + subst e'. by intros [= _ <-].
Qed.

Lemma connect_failure_text self opened reads msgs e :
  socket_timeouts_only reads ->
  connect self opened reads = (msgs, Raised e) -> failure_text e <> [].
Proof.
  intros Hreads. unfold connect. destruct opened as [|text].
  - destruct reads as [|[initial_data|e'] reads]; [done| |].
    + apply Forall_cons in Hreads as [_ Hreads].
      destruct (check_response initial_data) as [e'|buffer] eqn:Hc.
      * intros [= _ <-]. by eapply check_response_failure_text.
      * by apply read_loop_failure_text.
    + apply Forall_cons in Hreads as [-> _]. by intros [= _ <-].
  - by intros [= _ <-].
Qed.

Lemma starts_with_spec needle : forall hay,
  starts_with needle hay = true <-> exists post, hay = needle ++ post.
Proof.
  induction needle as [|n needle IH]; intros hay.
  - split; [by exists hay|by destruct hay].
  - destruct hay as [|h hay]; simpl.
    + split; [done|by intros [post ?]].
    + rewrite andb_true_iff, Z.eqb_eq, IH. split.
      * intros [-> [post ->]]. by exists post.
      * intros [post [= -> ->]]. split; [done|by exists post].
Qed.

Lemma str_contains_unfold needle hay :
  str_contains needle hay
  = starts_with needle hay
    || match hay with [] => false | _ :: hay' => str_contains needle hay' end.
Proof. by destruct hay. Qed.

Lemma str_contains_spec needle hay :
  str_contains needle hay = true <->
  exists pre post, hay = pre ++ needle ++ post.
Proof.
  split.
  - induction hay as [|h hay IH]; rewrite str_contains_unfold, orb_true_iff.
    + intros [H|H]; [|done]. apply starts_with_spec in H as [post ->].
      by exists [], post.
    + intros [H|H].
      * apply starts_with_spec in H as [post ->]. by exists [], post.
      * destruct (IH H) as (pre & post & ->). by exists (h :: pre), post.
  - intros (pre & post & ->). induction pre as [|p pre IH].
    + rewrite str_contains_unfold, orb_true_iff. left.
      apply starts_with_spec. by exists post.
    + rewrite str_contains_unfold, orb_true_iff. right. exact IH.
Qed.

(** C4. Handshake acceptance: the first chunk read from the server is
    accepted, and the session goes on to read the stream, exactly when it
    is not empty and ["200"] occurs in its first line; a non-empty chunk
    without it makes [connect] raise, before any message is yielded, a
    [ConnectionError] whose text ends with that first line; an empty chunk
    makes it raise a [ConnectionError] as well. *)
Theorem connect_handshake (self : NTRIPClient) (initial_data : list byte)
    (reads : list read_result) :
  let first_line := response_first_line initial_data in
  let has_200 := exists pre post, first_line = pre ++ str_lit "200" ++ post in
  let session := connect self Opened (ReadData initial_data :: reads) in
  ((exists buffer, check_response initial_data = inr buffer /\
                   session = read_loop buffer reads)
   <-> initial_data <> [] /\ has_200) /\
  (initial_data <> [] -> ~ has_200 ->
   session
   = ([], Raised (ConnectionError
                    (str_lit "NTRIP server returned: " ++ first_line)))) /\
  (initial_data = [] ->
   session
   = ([], Raised (ConnectionError
                    (str_lit
                       "Server closed connection without sending response")))).
Proof.
  intros first_line has_200 session. subst session. unfold connect.
  assert (Hhas : str_contains (str_lit "200") first_line = true <-> has_200)
    by apply str_contains_spec.
  destruct initial_data as [|b bs].
  - split; [|done]. split; [by intros (buffer & [=] & _)|by intros [? _]].
  - unfold check_response. fold (response_first_line (b :: bs)).
    fold first_line.
    destruct (str_contains (str_lit "200") first_line) eqn:Hc; cbn [negb].
    + split; [|split; [|done]].
      * split; [intros _; split; [done|by apply Hhas]|].
        intros _. eexists. split; reflexivity.
      * intros _ Hno. destruct Hno. by apply Hhas.
    + split; [|split; [done|done]].
      split; [by intros (buffer & [=] & _)|].
      intros [_ H]. apply Hhas in H. done.
Qed.

(** ** The supervisor *)

Section CoordinatorProperties.

Context {const : Const}.

(** A property of the coordinator that the status updates and the message
    handler keep is kept by every step, hence along every run. *)
Section Invariant.

Variable P : RTCMCoordinator -> Prop.
Hypothesis P_with_status :
  forall conn err stop c, P c -> P (with_status conn err stop c).
Hypothesis P_on_message :
  forall now c msg_info, P c -> P (on_message now c msg_info).

Lemma loop_head_invariant c : P c -> P (loop_head c).1.1.
Proof. unfold loop_head. destruct (stop_event c); simpl; auto. Qed.

Lemma after_session_invariant c : P c -> P (after_session c).1.1.
Proof.
  unfold after_session. destruct (stop_event c) eqn:Hs; simpl; [|done].
  intros HP. unfold loop_head. rewrite Hs. done.
Qed.

Lemma step_invariant c ph ev : P c -> P (step c ph ev).1.1.
Proof.
  intros HP. destruct ph, ev; simpl; auto using loop_head_invariant.
  - destruct (stop_event c); simpl; auto using after_session_invariant.
  - pose proof (after_session_invariant (record_failure e c)
                  ltac:(by apply P_with_status)) as H.
    by destruct (after_session (record_failure e c)) as [[? ?] ?].
  - by apply P_with_status.
Qed.

Lemma run_events_invariant evs : forall c ph,
  P c -> P (run_events c ph evs).1.1.
Proof.
  induction evs as [|ev evs IH]; intros c ph HP; [done|].
  cbn [run_events].
  pose proof (step_invariant c ph ev HP) as Hs.
  destruct (step c ph ev) as [[c1 ph1] a1]. simpl in Hs.
  specialize (IH c1 ph1 Hs).
  by destruct (run_events c1 ph1 evs) as [[c2 ph2] a2].
Qed.

Lemma run_invariant c evs : P c -> P (_run c evs).1.1.
Proof.
  intros HP. unfold _run.
  pose proof (loop_head_invariant c HP) as Hh.
  destruct (loop_head c) as [[c1 ph1] a1]. simpl in Hh.
  pose proof (run_events_invariant evs c1 ph1 Hh) as Hr.
  by destruct (run_events c1 ph1 evs) as [[c2 ph2] a2].
Qed.

End Invariant.


(** *** Satellite totals *)

Lemma on_message_total now c msg_info :
  total_satellites c
  = gps_satellites c + glonass_satellites c + galileo_satellites c
    + beidou_satellites c ->
  let c' := on_message now c msg_info in
  total_satellites c'
  = gps_satellites c' + glonass_satellites c' + galileo_satellites c'
    + beidou_satellites c'.
Proof.
  intros Hc. unfold on_message.
  destruct (truthy (info_satellites msg_info)); [|exact Hc].
  repeat (destruct (between _ _ _); [reflexivity|]). reflexivity.
Qed.

Lemma run_total conf_timeout evs :
  let c := (_run (__init__ conf_timeout) evs).1.1 in
  total_satellites c
  = gps_satellites c + glonass_satellites c + galileo_satellites c
    + beidou_satellites c.
Proof.
  apply (run_invariant
           (fun c => total_satellites c
                     = gps_satellites c + glonass_satellites c
                       + galileo_satellites c + beidou_satellites c));
    [done| |done].
  intros now c msg_info. apply on_message_total.
Qed.

(** C9. Satellite-total invariant: when the coordinator is created, at
    every point of every run of the loop, and so after every message it
    processes, [total_satellites] is the sum of the four constellation
    counters. *)
Theorem total_satellites_is_sum (conf_timeout : Z) :
  let total_is_sum c :=
    total_satellites c
    = gps_satellites c + glonass_satellites c + galileo_satellites c
      + beidou_satellites c in
  total_is_sum (__init__ conf_timeout) /\
  (forall evs, total_is_sum (_run (__init__ conf_timeout) evs).1.1) /\
  (forall evs now msg_info,
     total_is_sum
       (on_message now (_run (__init__ conf_timeout) evs).1.1 msg_info)).
Proof.
  intros total_is_sum.
  split; [done|]. split; [intros evs; apply run_total|].
  intros evs now msg_info. apply on_message_total, run_total.
Qed.

(** *** Decoded satellite counts are positive *)

Lemma parse_msm_satellite_count_positive message msg_id n :
  _parse_msm_satellite_count message msg_id = Some n -> 0 < n.
Proof.
  unfold _parse_msm_satellite_count, _parse_legacy_obs_satellite_count.
  repeat match goal with
         | |- context [if ?b then _ else _] => destruct b eqn:?
         end; try discriminate; intros [= <-]; by apply Z.ltb_lt.
Qed.

Lemma Decodes_satellites_positive l r ms :
  Decodes l r ms ->
  forall m n, In m ms -> info_satellites m = Some n -> 0 < n.
Proof.
  induction 1 as [| | |l rem ms Hl Hm Hf _ IH]; intros m n Hin Hs;
    try (by destruct Hin); eauto.
  destruct Hin as [<-|Hin]; [|eauto].
  by apply parse_msm_satellite_count_positive in Hs.
Qed.

Lemma process_buffer_satellites_positive buffer m n :
  In m (_process_buffer buffer).2 -> info_satellites m = Some n -> 0 < n.
Proof.
  rewrite process_buffer_decode.
  apply (Decodes_satellites_positive _ _ _ (decode_Decodes _)).
Qed.

(** C10. QZSS messages leave the constellation counters unchanged: when a
    decoded message with an id in 1114-1117 carries a satellite count, the
    processing step, taken at any point of a run, keeps the four
    constellation counters and the total as they were, while the count
    appears in the last-message summary. *)
Theorem qzss_message_leaves_counters (conf_timeout : Z) (evs : list event)
    (now : Z * Z) (buffer : list byte) (msg_info : message_info) (n : Z) :
  In msg_info (_process_buffer buffer).2 ->
  1114 <= info_id msg_info <= 1117 ->
  info_satellites msg_info = Some n ->
  let c := (_run (__init__ conf_timeout) evs).1.1 in
  let c' := on_message now c msg_info in
  gps_satellites c' = gps_satellites c /\
  glonass_satellites c' = glonass_satellites c /\
  galileo_satellites c' = galileo_satellites c /\
  beidou_satellites c' = beidou_satellites c /\
  total_satellites c' = total_satellites c /\
  last_message c'
  = Some (str_lit "RTCM " ++ str_of_int (info_id msg_info) ++ str_lit " ("
          ++ str_of_int n ++ str_lit " sats)").
Proof.
  intros Hin Hid Hsat c c'.
  pose proof (process_buffer_satellites_positive _ _ _ Hin Hsat) as Hn.
  pose proof (run_total conf_timeout evs) as Hsum.
  cbv zeta in Hsum. fold c in Hsum. subst c'. unfold on_message.
  rewrite Hsat. cbn [truthy default].
  destruct (Z.eqb_spec n 0) as [->|_]; [lia|]. cbn [negb].
  unfold between.
  repeat match goal with
         | |- context [(?a <=? ?b) && _] =>
           destruct (Z.leb_spec a b); cbn [andb]; try lia
         | |- context [?a <=? ?b] =>
           destruct (Z.leb_spec a b); cbn [andb]; try lia
         end.
  all: cbn; repeat split; try done; by rewrite Hsum.
Qed.

(** *** The list of observed message types *)

Lemma track_message_type_seen msg_type types :
  msg_type ∈ types -> track_message_type msg_type types = types.
Proof.
  intros Hin. unfold track_message_type.
  by rewrite bool_decide_eq_true_2.
Qed.

Lemma track_message_type_new msg_type types :
  0 < MAX_MESSAGE_TYPES ->
  msg_type ∉ types ->
  exists evicted,
    types ++ [msg_type] = evicted ++ track_message_type msg_type types /\
    Z.of_nat (length evicted)
    = Z.max 0 (Z.of_nat (length types) + 1 - MAX_MESSAGE_TYPES).
Proof.
  intros Hmax Hnew. unfold track_message_type.
  rewrite bool_decide_eq_false_2 by done.
  assert (Hlen : Z.of_nat (length (types ++ [msg_type]))
                 = Z.of_nat (length types) + 1)
    by (rewrite length_app; simpl; lia).
  destruct (Z.ltb_spec MAX_MESSAGE_TYPES
              (Z.of_nat (length (types ++ [msg_type])))) as [Hover|Hfits].
  - unfold slice_from. destruct (Z.ltb_spec (- MAX_MESSAGE_TYPES) 0); [|lia].
    set (k := Z.to_nat (Z.max 0 (Z.of_nat (length (types ++ [msg_type]))
                                 + - MAX_MESSAGE_TYPES))).
    exists (take k (types ++ [msg_type])). split; [by rewrite take_drop|].
    rewrite length_take. unfold k. lia.
  - exists []. split; [done|]. simpl. lia.
Qed.

Lemma track_message_type_bounded msg_type types :
  0 < MAX_MESSAGE_TYPES ->
  NoDup types /\ Z.of_nat (length types) <= MAX_MESSAGE_TYPES ->
  NoDup (track_message_type msg_type types) /\
  Z.of_nat (length (track_message_type msg_type types)) <= MAX_MESSAGE_TYPES.
Proof.
  intros Hmax [Hnd Hlen].
  destruct (decide (msg_type ∈ types)) as [Hin|Hnew].
  - by rewrite track_message_type_seen.
  - destruct (track_message_type_new msg_type types Hmax Hnew)
      as (evicted & Heq & Hev).
    assert (Hnd' : NoDup (types ++ [msg_type])).
    { apply NoDup_app. split; [done|]. split; [|apply NoDup_singleton].
      intros x Hx Hx'. apply list_elem_of_singleton in Hx'. by subst. }
    rewrite Heq in Hnd'. apply NoDup_app in Hnd' as (_ & _ & Hnd').
    split; [done|].
    apply (f_equal length) in Heq. rewrite !length_app in Heq.
    simpl in Heq. lia.
Qed.

Lemma on_message_message_types now c msg_info :
  message_types (on_message now c msg_info)
  = track_message_type (info_id msg_info) (message_types c).
Proof.
  unfold on_message.
  destruct (truthy _); [|reflexivity].
  repeat (destruct (between _ _ _); [reflexivity|]). reflexivity.
Qed.

Lemma run_message_types conf_timeout evs :
  0 < MAX_MESSAGE_TYPES ->
  let c := (_run (__init__ conf_timeout) evs).1.1 in
  NoDup (message_types c) /\
  Z.of_nat (length (message_types c)) <= MAX_MESSAGE_TYPES.
Proof.
  intros Hmax.
  apply (run_invariant
           (fun c => NoDup (message_types c) /\
                     Z.of_nat (length (message_types c))
                     <= MAX_MESSAGE_TYPES)); [done| |].
  - intros now c msg_info Hc. rewrite on_message_message_types.
    by apply track_message_type_bounded.
  - split; [apply NoDup_nil_2|simpl; lia].
Qed.

(** C8. Bounded distinct-id set: with a positive [MAX_MESSAGE_TYPES], at
    every point of a run and after every message processed there, the
    observed ids are pairwise distinct and at most [MAX_MESSAGE_TYPES] in
    number; an id already in the list leaves it as it is, and a new id is
    put at the end, after which the list is cut at its old end: what is
    kept is the tail of the old list followed by the new id, in the same
    order, and what is evicted are the oldest entries. *)
Theorem message_types_distinct_bounded (conf_timeout : Z) :
  0 < MAX_MESSAGE_TYPES ->
  forall evs now msg_info,
    let c := (_run (__init__ conf_timeout) evs).1.1 in
    let c' := on_message now c msg_info in
    (NoDup (message_types c) /\
     Z.of_nat (length (message_types c)) <= MAX_MESSAGE_TYPES) /\
    (NoDup (message_types c') /\
     Z.of_nat (length (message_types c')) <= MAX_MESSAGE_TYPES) /\
    (info_id msg_info ∈ message_types c ->
     message_types c' = message_types c) /\
    (info_id msg_info ∉ message_types c ->
     exists evicted,
       message_types c ++ [info_id msg_info] = evicted ++ message_types c' /\
       Z.of_nat (length evicted)
       = Z.max 0 (Z.of_nat (length (message_types c)) + 1
                  - MAX_MESSAGE_TYPES)).
Proof.
  intros Hmax evs now msg_info c c'.
  pose proof (run_message_types conf_timeout evs Hmax) as Hc.
  subst c'. rewrite on_message_message_types.
  split; [exact Hc|]. split; [by apply track_message_type_bounded|].
  split.
  - apply track_message_type_seen.
  - by apply track_message_type_new.
Qed.

(** *** Failures and retries *)

Lemma on_message_stop_event now c msg_info :
  stop_event (on_message now c msg_info) = stop_event c.
Proof.
  unfold on_message.
  destruct (truthy _); [|reflexivity].
  repeat (destruct (between _ _ _); [reflexivity|]). reflexivity.
Qed.

Lemma step_keeps_running c ph ev :
  stop_event c = false -> ph <> Finished ->
  ev <> StopRequested -> ev <> Cancelled ->
  (forall e, ev <> ListenerRaised e) ->
  stop_event (step c ph ev).1.1 = false /\ (step c ph ev).1.2 <> Finished.
Proof.
  intros Hstop Hph Hev1 Hev2 Hev3.
  destruct ph, ev; try done; try (by destruct (Hev3 e));
    unfold step, after_session, loop_head;
    cbn [record_failure with_status stop_event negb]; rewrite ?Hstop;
    cbn [fst snd stop_event with_status negb];
    rewrite ?on_message_stop_event; done.
Qed.

Lemma run_events_keeps_running evs : forall c ph,
  stop_event c = false -> ph <> Finished ->
  no_stop evs -> listeners_return evs ->
  (run_events c ph evs).1.2 <> Finished.
Proof.
  induction evs as [|ev evs IH]; intros c ph Hstop Hph Hevs Hret; [done|].
  apply Forall_cons in Hevs as [[Hev1 Hev2] Hevs].
  apply Forall_cons in Hret as [Hev3 Hret].
  cbn [run_events].
  destruct (step_keeps_running c ph ev Hstop Hph Hev1 Hev2 Hev3) as [Hs Hp].
  destruct (step c ph ev) as [[c1 ph1] a1]. simpl in Hs, Hp.
  specialize (IH c1 ph1 Hs Hp Hevs Hret).
  by destruct (run_events c1 ph1 evs) as [[c2 ph2] a2].
Qed.

(** Once [_run] has ended nothing happens any more. *)
Lemma run_events_finished evs : forall c,
  run_events c Finished evs = (c, Finished, []).
Proof.
  induction evs as [|ev evs IH]; intros c; [done|].
  cbn [run_events step]. by rewrite IH.
Qed.

(** C5 (as amended). Supervisor retry: when the session fails while no
    stop is requested, the loop sets [connected] to false, stores the
    text of the failure and notifies the listeners.  When every callback
    returns, it sleeps 5 seconds, and when the sleep is over it starts
    exactly one new connection attempt.  When a callback raises, [_run]
    ends in the notification: there is no sleep and no further attempt,
    whatever happens afterwards.  The stored text is ["Connection timeout"]
    for a timeout and [str(e)] otherwise, which is not empty for any
    failure [connect] raises itself.  Without a stop request, a
    cancellation or a raising callback the loop never finishes. *)
Theorem run_retries_after_failure (c : RTCMCoordinator) (e : exn) :
  stop_event c = false ->
  let failed := step c Streaming (Failed e) in
  let retried := step failed.1.1 failed.1.2 Woke in
  let aborted := step c Streaming (ListenerRaised e) in
  connected failed.1.1 = false /\
  error_message failed.1.1 = Some (failure_text e) /\
  failed.2 = [Notify; Sleep 5] /\
  failed.1.2 = Sleeping /\
  retried.2 = [Connect (timeout c)] /\
  retried.1.2 = Streaming /\
  (connected aborted.1.1 = false /\
   error_message aborted.1.1 = Some (failure_text e) /\
   aborted.2 = [Notify] /\
   forall evs,
     run_events aborted.1.1 aborted.1.2 evs
     = (aborted.1.1, Finished, [])) /\
  (e = TimeoutError -> failure_text e = str_lit "Connection timeout") /\
  (forall self opened reads msgs,
     socket_timeouts_only reads ->
     connect self opened reads = (msgs, Raised e) ->
     failure_text e <> []) /\
  (forall ph evs,
     ph <> Finished -> no_stop evs -> listeners_return evs ->
     (run_events c ph evs).1.2 <> Finished).
Proof.
  intros Hstop failed retried aborted. subst retried failed aborted.
  unfold step, after_session, record_failure.
  cbn [with_status stop_event]. rewrite Hstop. cbn [negb fst snd].
  unfold loop_head. cbn [with_status stop_event connected error_message
                         timeout fst snd].
  rewrite ?Hstop. cbn [fst snd].
  repeat (split; [reflexivity|]).
  split.
  { repeat (split; [reflexivity|]). intros evs. apply run_events_finished. }
  split; [by intros ->|].
  split.
  - intros self opened reads msgs. apply connect_failure_text.
  - intros ph evs. by apply run_events_keeps_running.
Qed.

End CoordinatorProperties.

(** ** Instances *)

(** The 401 response is refused before any message; the ICY response is
    accepted and the frame behind its headers is decoded. *)
Lemma connect_handshake_witness :
  unauthorized_response <> [] /\
  ~ (exists pre post,
       response_first_line unauthorized_response
       = pre ++ str_lit "200" ++ post) /\
  connect sample_client Opened [ReadData unauthorized_response]
  = ([], Raised (ConnectionError
                   (str_lit
                      "NTRIP server returned: HTTP/1.0 401 Unauthorized"))) /\
  response_first_line icy_ok_response = str_lit "ICY 200 OK" /\
  connect sample_client Opened [ReadData icy_ok_response]
  = ([MessageInfo 1077 20 (Some 7)], Blocked).
Proof.
  assert (Hne : unauthorized_response <> []) by discriminate.
  assert (Hno : ~ (exists pre post,
                     response_first_line unauthorized_response
                     = pre ++ str_lit "200" ++ post)).
  { intros H. apply str_contains_spec in H. vm_compute in H. discriminate H. }
  split; [exact Hne|]. split; [exact Hno|].
  destruct (connect_handshake sample_client unauthorized_response [])
    as (_ & Hreject & _).
  split; [rewrite (Hreject Hne Hno); reflexivity|].
  split; [reflexivity|].
  destruct (connect_handshake sample_client icy_ok_response [])
    as ([_ Haccept] & _).
  destruct Haccept as (buffer & Hbuffer & ->).
  { split; [discriminate|]. by exists (str_lit "ICY "), (str_lit " OK"). }
  vm_compute in Hbuffer. injection Hbuffer as <-. vm_compute. reflexivity.
Defined.

(** C5 as stated fails in two ways.  For an exception whose text is
    empty the loop stores that empty text.  And when a callback raises
    while the listeners are notified of a timeout, the run ends, with
    neither a stop request nor a cancellation among its events: it has
    made its first connection attempt and one notification, and it makes
    no new attempt when woken. *)
Lemma run_failure_with_empty_text :
  (error_message
     (@step (const_py 50) (__init__ 10) Streaming
        (Failed (OtherException []))).1.1
   = Some [] /\
   ~ (forall (const : Const) (c : RTCMCoordinator) (e : exn),
        stop_event c = false ->
        exists text,
          error_message (step c Streaming (Failed e)).1.1 = Some text /\
          text <> [])) /\
  (no_stop [ListenerRaised TimeoutError; Woke] /\
   @_run (const_py 50) (__init__ 10) [ListenerRaised TimeoutError; Woke]
   = (with_status false (Some (str_lit "Connection timeout")) false
        (__init__ 10),
      Finished, [Connect 10; Notify]) /\
   ~ (forall (const : Const) (c : RTCMCoordinator) (evs : list event),
        stop_event c = false -> no_stop evs ->
        (_run c evs).1.2 <> Finished)).
Proof.
  assert (Hno : no_stop [ListenerRaised TimeoutError; Woke]).
  { repeat apply Forall_cons_2; try apply Forall_nil_2; by split. }
  split; [split|split; [exact Hno|split]].
  - reflexivity.
  - intros H.
    destruct (H (const_py 50) (__init__ 10) (OtherException []) eq_refl)
      as (text & Htext & Hne).
    vm_compute in Htext. injection Htext as <-. by apply Hne.
  - reflexivity.
  - intros H.
    by apply (H (const_py 50) (__init__ 10)
                [ListenerRaised TimeoutError; Woke] eq_refl Hno).
Qed.

(** The peer closes a session that was streaming. *)
Lemma run_retries_after_failure_witness :
  let c := (@_run (const_py 50) (__init__ 10) sample_events).1.1 in
  let e := ConnectionError (str_lit "Stream closed by server") in
  let failed := @step (const_py 50) c Streaming (Failed e) in
  let aborted := @step (const_py 50) c Streaming (ListenerRaised e) in
  stop_event c = false /\
  connected c = true /\
  connected failed.1.1 = false /\
  error_message failed.1.1 = Some (str_lit "Stream closed by server") /\
  failed.2 = [Notify; Sleep 5] /\
  (@step (const_py 50) failed.1.1 failed.1.2 Woke).2 = [Connect 10] /\
  aborted.2 = [Notify] /\
  (@run_events (const_py 50) aborted.1.1 aborted.1.2 [Woke]).2 = [].
Proof.
  intros c e failed aborted.
  assert (Hstop : stop_event c = false) by reflexivity.
  destruct (@run_retries_after_failure (const_py 50) c e Hstop)
    as (Hconn & Herr & Hact & _ & Hretry & _ & (_ & _ & Habort & Hend) & _).
  split; [exact Hstop|]. split; [reflexivity|].
  split; [exact Hconn|]. split; [exact Herr|]. split; [exact Hact|].
  split; [exact Hretry|]. split; [exact Habort|].
  exact (f_equal snd (Hend [Woke])).
Defined.

(** With room for three ids, the fourth and the fifth id each push the
    oldest one out. *)
Lemma message_types_distinct_bounded_witness :
  let c := (@_run (const_py 3) (__init__ 10) four_types_events).1.1 in
  let c' := @on_message (const_py 3) (110, 111) c (MessageInfo 1005 19 None) in
  0 < @MAX_MESSAGE_TYPES (const_py 3) /\
  message_types c = [1087; 1097; 1127] /\
  message_types c' = [1097; 1127; 1005] /\
  NoDup (message_types c') /\
  Z.of_nat (length (message_types c')) <= 3.
Proof.
  intros c c'.
  assert (Hmax : 0 < @MAX_MESSAGE_TYPES (const_py 3)) by (simpl; lia).
  destruct (@message_types_distinct_bounded (const_py 3) 10 Hmax
              four_types_events
              (110, 111) (MessageInfo 1005 19 None))
    as (_ & [Hnd Hlen] & _).
  split; [exact Hmax|]. split; [reflexivity|]. split; [reflexivity|].
  split; [exact Hnd|exact Hlen].
Defined.

(** A QZSS frame with 7 satellites after 9 GPS and 6 GLONASS ones. *)
Lemma qzss_message_leaves_counters_witness :
  let c := (@_run (const_py 50) (__init__ 10) sample_events).1.1 in
  let msg_info := MessageInfo 1114 20 (Some 7) in
  let c' := @on_message (const_py 50) (104, 105) c msg_info in
  In msg_info (_process_buffer qzss_1114_frame).2 /\
  (gps_satellites c, glonass_satellites c, galileo_satellites c,
   beidou_satellites c, total_satellites c) = (9, 6, 0, 0, 15) /\
  (gps_satellites c', glonass_satellites c', galileo_satellites c',
   beidou_satellites c', total_satellites c') = (9, 6, 0, 0, 15) /\
  last_message c' = Some (str_lit "RTCM 1114 (7 sats)").
Proof.
  intros c msg_info c'.
  assert (Hin : In msg_info (_process_buffer qzss_1114_frame).2)
    by (vm_compute; left; reflexivity).
  assert (Hid : 1114 <= info_id msg_info <= 1117) by (simpl; lia).
  destruct (@qzss_message_leaves_counters (const_py 50) 10 sample_events
              (104, 105)
              qzss_1114_frame msg_info 7 Hin Hid eq_refl)
    as (Hgps & Hglo & Hgal & Hbei & Htot & Hlast).
  split; [exact Hin|]. split; [reflexivity|].
  split; [|exact Hlast].
  subst c' msg_info c.
  rewrite Hgps, Hglo, Hgal, Hbei, Htot. reflexivity.
Defined.

(** * Further properties *)

(** ** The frame decoder, continued *)

Lemma byte_val_range b : 0 <= byte_val b <= 255.
Proof. destruct b; vm_compute; split; discriminate. Qed.

Lemma lor_le_add x y : 0 <= x -> 0 <= y -> 0 <= Z.lor x y <= x + y.
Proof.
  intros Hx Hy. pose proof (Z.add_lor_land x y) as H.
  assert (0 <= Z.land x y) by (apply Z.land_nonneg; lia).
  assert (0 <= Z.lor x y) by (apply Z.lor_nonneg; lia). lia.
Qed.

Lemma declared_length_range l : 0 <= declared_length l <= 1023.
Proof.
  destruct l as [|b0 [|b1 [|b2 l]]]; simpl; try lia.
  pose proof (byte_val_range b1). pose proof (byte_val_range b2).
  assert (0 <= Z.land (byte_val b1) 3 <= 3).
  { change 3 with (Z.ones 2) at 1 2. rewrite Z.land_ones by lia.
    pose proof (Z.mod_pos_bound (byte_val b1) (2 ^ 2)). lia. }
  pose proof (lor_le_add (Z.shiftl (Z.land (byte_val b1) 3) 8) (byte_val b2)).
  rewrite Z.shiftl_mul_pow2 in * by lia. lia.
Qed.

Lemma frame_id_range l : 0 <= frame_id l <= 4095.
Proof.
  destruct l as [|b0 [|b1 [|b2 [|b3 [|b4 l]]]]]; simpl; try lia.
  pose proof (byte_val_range b3). pose proof (byte_val_range b4).
  pose proof (lor_le_add (Z.shiftl (byte_val b3) 4) (Z.shiftr (byte_val b4) 4)).
  rewrite Z.shiftl_mul_pow2, Z.shiftr_div_pow2 in * by lia.
  change (2 ^ 4) with 16 in *.
  assert (0 <= byte_val b4 / 16) by (apply Z.div_pos; lia).
  assert (byte_val b4 / 16 < 16) by (apply Z.div_lt_upper_bound; lia).
  lia.
Qed.

Lemma frame_size_le l : (frame_size l <= 1029)%nat.
Proof. unfold frame_size. pose proof (declared_length_range l). lia. Qed.

Lemma count_set_bits_le bs : count_set_bits bs <= 8 * Z.of_nat (length bs).
Proof.
  unfold count_set_bits.
  pose proof (length_filter (fun b : bool => b = true) (bits_of_bytes bs)).
  rewrite bits_of_bytes_length in *. lia.
Qed.

Lemma trim_to_marker_no_marker junk buffer :
  no_marker junk -> trim_to_marker (junk ++ buffer) = trim_to_marker buffer.
Proof.
  induction 1 as [|b junk Hb _ IH]; [done|]. simpl.
  by destruct (Z.eqb_spec (byte_val b) 0xD3).
Qed.

(** X1. Bytes in front of the first marker are dropped: a prefix without
    [0xD3] changes neither the messages nor the remaining buffer, and a
    buffer without any marker is discarded whole. *)
Theorem process_buffer_leading_junk (junk buffer : list byte) :
  no_marker junk ->
  _process_buffer (junk ++ buffer) = _process_buffer buffer /\
  _process_buffer junk = ([], []).
Proof.
  intros Hjunk. rewrite !process_buffer_decode.
  split; [by rewrite trim_to_marker_no_marker|].
  rewrite <- (app_nil_r junk), trim_to_marker_no_marker by done.
  reflexivity.
Qed.

Lemma process_buffer_leading_junk_witness :
  no_marker [x00; x7f; xff] /\
  _process_buffer ([x00; x7f; xff] ++ msm_1077_frame)
  = ([], [MessageInfo 1077 20 (Some 7)]).
Proof.
  assert (Hjunk : no_marker [x00; x7f; xff])
    by (repeat constructor; discriminate).
  split; [exact Hjunk|].
  destruct (process_buffer_leading_junk [x00; x7f; xff] msm_1077_frame Hjunk)
    as [-> _].
  vm_compute. reflexivity.
Defined.

Lemma trim_to_marker_suffix l : trim_to_marker l `suffix_of` l.
Proof.
  induction l as [|b l IH]; [done|]. simpl.
  destruct (byte_val b =? 0xD3); [done|]. by apply suffix_cons_r.
Qed.

Lemma Decodes_accounting l r ms :
  Decodes l r ms ->
  r `suffix_of` l /\
  frames_bytes ms + Z.of_nat (length r) <= Z.of_nat (length l) /\
  6 * Z.of_nat (length ms) + Z.of_nat (length r) <= Z.of_nat (length l).
Proof.
  induction 1 as [l Hl|b l rem ms Hl Hb _ IH|l Hl Hm Hw
                 |l rem ms Hl Hm Hf _ IH]; simpl.
  - split; [done|lia].
  - destruct IH as (Hs & Hb1 & Hb2).
    split; [by apply suffix_cons_r|]. simpl in *. lia.
  - split; [done|lia].
  - destruct IH as (Hs & Hb1 & Hb2).
    split; [etrans; [exact Hs|apply suffix_drop]|].
    rewrite length_drop in *. pose proof (declared_length_range l).
    pose proof (frame_size_ge l). unfold frame_size in *. lia.
Qed.

(** X2. Byte accounting of a decoder call: the remaining buffer is a
    suffix of the input, and the input is at least as long as the frames
    of the messages found (payload + 6 each) plus the remaining buffer;
    in particular a buffer of [n] bytes gives at most [n / 6] messages. *)
Theorem process_buffer_accounting (buffer : list byte) :
  let rem := (_process_buffer buffer).1 in
  let ms := (_process_buffer buffer).2 in
  rem `suffix_of` buffer /\
  frames_bytes ms + Z.of_nat (length rem) <= Z.of_nat (length buffer) /\
  6 * Z.of_nat (length ms) <= Z.of_nat (length buffer).
Proof.
  intros rem ms. subst rem ms. rewrite process_buffer_decode.
  destruct (Decodes_accounting _ _ _ (decode_Decodes (trim_to_marker buffer)))
    as (Hs & Hb1 & Hb2).
  pose proof (trim_to_marker_length buffer).
  split; [etrans; [exact Hs|apply trim_to_marker_suffix]|]. lia.
Qed.

Lemma Decodes_remaining l r ms :
  Decodes l r ms ->
  (length r < 6)%nat \/ (at_marker r /\ (length r < frame_size r)%nat).
Proof. induction 1; auto. Qed.

(** X3. The remaining buffer stays small: it is either shorter than a
    frame header with its checksum (6 bytes), or it starts at a marker and
    is shorter than the frame declared there; in both cases it has at most
    1028 bytes, whatever the size of the input. *)
Theorem process_buffer_remaining_bounded (buffer : list byte) :
  let rem := (_process_buffer buffer).1 in
  ((length rem < 6)%nat \/
   (at_marker rem /\ Z.of_nat (length rem) < declared_length rem + 6)) /\
  (length rem <= 1028)%nat.
Proof.
  intros rem. subst rem. rewrite process_buffer_decode.
  destruct (Decodes_remaining _ _ _ (decode_Decodes (trim_to_marker buffer)))
    as [Hshort|[Hm Hw]].
  - split; [by left|lia].
  - pose proof (frame_size_le (decode (trim_to_marker buffer)).1).
    split; [|lia]. right. split; [done|].
    by apply Z.ltb_lt, frame_size_lt.
Qed.

(** ** The satellite-count extractors, continued *)

Lemma parse_legacy_obs_satellite_count_some message msg_id n :
  _parse_legacy_obs_satellite_count message msg_id = Some n ->
  (11 <= length message)%nat /\ 1 <= n <= 31.
Proof.
  unfold _parse_legacy_obs_satellite_count.
  destruct (Nat.ltb_spec (length message) 10); [done|].
  destruct (Nat.ltb_spec (length (slice 3 11 message)) 8) as [|Hs]; [done|].
  unfold slice in Hs. rewrite length_take, length_drop in Hs.
  set (sc := Z.land _ 31).
  assert (0 <= sc <= 31).
  { assert (Hm : forall x, Z.land x 31 = x mod 32)
      by (intros x; apply (Z.land_ones x 5); lia).
    unfold sc. rewrite Hm.
    match goal with |- _ <= ?x mod _ <= _ =>
      pose proof (Z.mod_pos_bound x 32) end. lia. }
  destruct ((0 <=? sc) && (sc <=? 64)); [|done].
  destruct (Z.ltb_spec 0 sc); [|done].
  intros [= <-]. lia.
Qed.

Lemma parse_msm_satellite_count_cases message msg_id n :
  _parse_msm_satellite_count message msg_id = Some n ->
  (in_legacy_obs_messages msg_id = true /\
   (11 <= length message)%nat /\ 1 <= n <= 31) \/
  (is_msm msg_id = true /\ (20 <= length message)%nat /\ 1 <= n <= 64).
Proof.
  unfold _parse_msm_satellite_count.
  destruct (in_legacy_obs_messages msg_id) eqn:Hleg.
  - intros H. left. split; [done|].
    by apply parse_legacy_obs_satellite_count_some in H.
  - destruct (is_msm msg_id) eqn:Hmsm; [|done]. cbn [negb orb].
    destruct (Nat.ltb_spec (length message) 14); [done|].
    destruct (Nat.ltb_spec (length message) 20); [done|].
    rewrite bin_count_ones_from_bytes.
    destruct (Z.ltb_spec 0 (count_set_bits (slice 11 19 message))); [|done].
    intros [= <-]. right. split; [done|]. split; [done|].
    pose proof (count_set_bits_le (slice 11 19 message)) as Hle.
    unfold slice in Hle at 2. rewrite length_take in Hle. lia.
Qed.

(** X4. A satellite count is only ever reported for an observation id and
    a frame that is long enough, and it is within the range of its field:
    1..31 for the legacy ids (frames of at least 11 bytes), 1..64 for the
    MSM windows (frames of at least 20 bytes).  Every other message id
    gives no count. *)
Theorem parse_msm_satellite_count_some
    (message : list byte) (msg_id n : Z) :
  _parse_msm_satellite_count message msg_id = Some n ->
  ((1001 <= msg_id <= 1004 \/ 1009 <= msg_id <= 1012) /\
   (11 <= length message)%nat /\ 1 <= n <= 31) \/
  ((1074 <= msg_id <= 1077 \/ 1084 <= msg_id <= 1087 \/
    1094 <= msg_id <= 1097 \/ 1114 <= msg_id <= 1117 \/
    1124 <= msg_id <= 1127) /\
   (20 <= length message)%nat /\ 1 <= n <= 64).
Proof.
  intros H.
  destruct (parse_msm_satellite_count_cases _ _ _ H) as [[Hid ?]|[Hid ?]].
  - left. split; [by apply in_legacy_obs_messages_spec|done].
  - right. split; [by apply is_msm_spec|done].
Qed.

Lemma parse_msm_satellite_count_some_witness :
  _parse_msm_satellite_count msm_1077_frame 1077 = Some 7 /\
  (20 <= length msm_1077_frame)%nat /\ 1 <= 7 <= 64.
Proof.
  assert (H : _parse_msm_satellite_count msm_1077_frame 1077 = Some 7)
    by reflexivity.
  split; [exact H|].
  destruct (parse_msm_satellite_count_some msm_1077_frame 1077 7 H)
    as [([?|?] & _)|(_ & Hlen & Hn)]; [lia..|].
  split; [exact Hlen|exact Hn].
Defined.

(** ** Decoded messages *)

Lemma frame_message_well_formed l : well_formed_message (frame_message l).
Proof.
  unfold well_formed_message, frame_message. cbn [info_id info_length
                                                    info_satellites].
  split; [apply frame_id_range|]. split; [apply declared_length_range|].
  intros n H.
  destruct (parse_msm_satellite_count_cases _ _ _ H) as [(_ & _ & ?)|(_ & _ & ?)];
    lia.
Qed.

Lemma Decodes_well_formed l r ms :
  Decodes l r ms -> Forall well_formed_message ms.
Proof.
  induction 1; try done. constructor; [apply frame_message_well_formed|done].
Qed.

(** X5. Ranges of the decoder's output: every message has an id in
    0..4095 and a length in 0..1023, and when it has a satellite count,
    the count is in 1..64. *)
Theorem process_buffer_messages_well_formed (buffer : list byte) :
  Forall well_formed_message (_process_buffer buffer).2.
Proof.
  rewrite process_buffer_decode.
  eapply Decodes_well_formed, decode_Decodes.
Qed.

(** X6. A complete frame at the head of the buffer is decoded by itself:
    its message comes first, with the id, the declared length and the
    satellite count read from the frame alone, followed by the messages of
    what comes behind it; a buffer that is exactly one frame leaves nothing
    behind. *)
Theorem process_buffer_frame_then_rest (frame rest : list byte) :
  at_marker frame ->
  Z.of_nat (length frame) = declared_length frame + 6 ->
  let message :=
    MessageInfo (frame_id frame) (declared_length frame)
      (_parse_msm_satellite_count frame (frame_id frame)) in
  (_process_buffer (frame ++ rest)).2 = message :: (_process_buffer rest).2 /\
  _process_buffer frame = ([], [message]).
Proof.
  intros Hm Hlen message.
  assert (Hsize : frame_size frame = length frame)
    by (unfold frame_size; lia).
  pose proof (frame_size_ge frame) as Hge.
  assert (Hmsg : frame_message frame = message).
  { unfold frame_message, message. by rewrite Hsize, firstn_all. }
  destruct (header_app frame rest ltac:(lia)) as (_ & _ & Hs & Hma).
  rewrite !process_buffer_decode.
  rewrite (trim_to_marker_at_marker (frame ++ rest)) by auto.
  rewrite (trim_to_marker_at_marker frame) by done.
  split.
  - rewrite decode_frame by (auto; rewrite Hs, length_app; lia).
    cbn [snd]. rewrite frame_message_app, Hmsg by lia.
    rewrite Hs, Hsize, drop_app_length. by rewrite decode_trim_messages.
  - rewrite decode_frame by (done || lia).
    rewrite Hmsg, Hsize, drop_all. reflexivity.
Qed.

Lemma process_buffer_frame_then_rest_witness :
  at_marker msm_1077_frame /\
  Z.of_nat (length msm_1077_frame) = declared_length msm_1077_frame + 6 /\
  (_process_buffer (msm_1077_frame ++ partial_frame_18)).2
  = [MessageInfo 1077 20 (Some 7)] /\
  _process_buffer msm_1077_frame = ([], [MessageInfo 1077 20 (Some 7)]).
Proof.
  assert (Hm : at_marker msm_1077_frame) by reflexivity.
  assert (Hlen : Z.of_nat (length msm_1077_frame)
                 = declared_length msm_1077_frame + 6) by reflexivity.
  destruct (process_buffer_frame_then_rest msm_1077_frame partial_frame_18
              Hm Hlen) as [Hrest Hone].
  split; [exact Hm|]. split; [exact Hlen|].
  split; [rewrite Hrest; vm_compute; reflexivity|].
  rewrite Hone. vm_compute. reflexivity.
Defined.

(** ** The transport session, continued *)

Lemma bytes_start_with_spec needle : forall hay,
  bytes_start_with needle hay = true <-> exists after, hay = needle ++ after.
Proof.
  induction needle as [|n needle IH]; intros hay.
  - split; [by exists hay|by destruct hay].
  - destruct hay as [|h hay]; simpl.
    + split; [done|by intros [after ?]].
    + rewrite andb_true_iff, IH. split.
      * intros [Hnh [after ->]]. apply Byte.byte_dec_bl in Hnh as ->.
        by exists after.
      * intros [after [= -> ->]]. split; [by apply Byte.byte_dec_lb|].
        by exists after.
Qed.

Lemma find_at_unfold i needle hay :
  find_at i needle hay
  = if bytes_start_with needle hay then i
    else match hay with
         | [] => -1
         | _ :: hay' => find_at (i + 1) needle hay'
         end.
Proof. by destruct hay. Qed.

Lemma find_at_none needle : forall hay i,
  ~ occurs needle hay -> find_at i needle hay = -1.
Proof.
  induction hay as [|h hay IH]; intros i Hno; rewrite find_at_unfold.
  - destruct (bytes_start_with needle []) eqn:Hs; [|done].
    apply bytes_start_with_spec in Hs as [after Hs].
    destruct Hno. by exists [], after.
  - destruct (bytes_start_with needle (h :: hay)) eqn:Hs.
    + apply bytes_start_with_spec in Hs as [after Hs].
      destruct Hno. by exists [], after.
    + apply IH. intros (before & after & ->). apply Hno.
      by exists (h :: before), after.
Qed.

Lemma find_at_occurs needle : forall hay i,
  find_at i needle hay <> -1 -> occurs needle hay.
Proof.
  induction hay as [|h hay IH]; intros i; rewrite find_at_unfold.
  - destruct (bytes_start_with needle []) eqn:Hs; [|done].
    apply bytes_start_with_spec in Hs as [after Hs]. intros _.
    by exists [], after.
  - destruct (bytes_start_with needle (h :: hay)) eqn:Hs.
    + apply bytes_start_with_spec in Hs as [after Hs]. intros _.
      by exists [], after.
    + intros Hf. destruct (IH (i + 1) Hf) as (p & q & ->).
      by exists (h :: p), q.
Qed.

Lemma start_inside_prefix (needle before after rest : list byte) h :
  (h :: before) ++ needle ++ after = needle ++ rest ->
  occurs needle ((h :: before) ++ take (length needle - 1) needle).
Proof.
  intros Hs.
  set (window := (h :: before) ++ take (length needle - 1) needle).
  assert (Hlen : (length needle <= length window)%nat).
  { unfold window. rewrite length_app, length_take. simpl. lia. }
  assert (Hw : (h :: before) ++ needle ++ after
               = window ++ drop (length needle - 1) needle ++ after).
  { unfold window. rewrite <- app_assoc. f_equal.
    by rewrite app_assoc, take_drop. }
  rewrite Hw in Hs. apply (f_equal (take (length needle))) in Hs.
  rewrite take_app_le, take_app_length in Hs by done.
  exists [], (drop (length needle) window). cbn [app].
  by rewrite <- Hs at 1; rewrite take_drop.
Qed.

Lemma find_at_first needle after : forall before i,
  ~ occurs needle (before ++ take (length needle - 1) needle) ->
  find_at i needle (before ++ needle ++ after)
  = i + Z.of_nat (length before).
Proof.
  induction before as [|h before IH]; intros i Hno; rewrite find_at_unfold.
  - replace (bytes_start_with needle ([] ++ needle ++ after)) with true;
      [simpl; lia|].
    symmetry. apply bytes_start_with_spec. by exists after.
  - destruct (bytes_start_with needle ((h :: before) ++ needle ++ after))
      eqn:Hs.
    + apply bytes_start_with_spec in Hs as [rest Hs]. destruct Hno.
      by eapply start_inside_prefix.
    + cbn [app]. rewrite IH; [simpl length; lia|].
      intros (p & q & Hpq). apply Hno. exists (h :: p), q.
      cbn [app]. by rewrite Hpq.
Qed.

Lemma find_at_found needle : forall hay i,
  occurs needle hay -> i <= find_at i needle hay.
Proof.
  intros hay i (before & after & ->). revert i.
  induction before as [|h before IH]; intros i; rewrite find_at_unfold.
  - replace (bytes_start_with needle ([] ++ needle ++ after)) with true;
      [lia|].
    symmetry. apply bytes_start_with_spec. by exists after.
  - destruct (bytes_start_with _ _); [lia|]. cbn [app].
    specialize (IH (i + 1)). lia.
Qed.

Lemma bytes_find_none hay needle :
  bytes_find hay needle = -1 <-> ~ occurs needle hay.
Proof.
  unfold bytes_find. split.
  - intros Hf Ho. apply (find_at_found needle hay 0) in Ho. lia.
  - apply find_at_none.
Qed.

Lemma check_response_accept initial_data :
  occurs (str_lit "200") (response_first_line initial_data) ->
  check_response initial_data
  = inr (let header_end := bytes_find initial_data [x0d; x0a; x0d; x0a] in
         let header_end :=
           if header_end =? -1
           then
             let header_end := bytes_find initial_data [x0a; x0a] in
             if negb (header_end =? -1) then header_end + 2 else header_end
           else header_end + 4 in
         if 0 <? header_end
         then drop (Z.to_nat header_end) initial_data
         else initial_data).
Proof.
  intros H200. apply str_contains_spec in H200.
  destruct initial_data as [|b bs]; [done|].
  unfold check_response. fold (response_first_line (b :: bs)).
  by rewrite H200.
Qed.

(** X7. Headers and stream in one read: when the accepted response holds
    the blank line [\r\n\r\n], and that is its first one, the bytes behind
    it, and only they, seed the decoder's buffer. *)
Theorem check_response_body_after_headers (headers body : list byte) :
  let initial_data := headers ++ [x0d; x0a; x0d; x0a] ++ body in
  occurs (str_lit "200") (response_first_line initial_data) ->
  ~ occurs [x0d; x0a; x0d; x0a] (headers ++ [x0d; x0a; x0d]) ->
  check_response initial_data = inr body.
Proof.
  intros initial_data H200 Hfirst. rewrite check_response_accept by done.
  assert (Hf : bytes_find initial_data [x0d; x0a; x0d; x0a]
               = Z.of_nat (length headers)).
  { unfold bytes_find, initial_data. by rewrite find_at_first. }
  cbv zeta. rewrite !Hf. f_equal.
  destruct (Z.eqb_spec (Z.of_nat (length headers)) (-1)); [lia|].
  destruct (Z.ltb_spec 0 (Z.of_nat (length headers) + 4)); [|lia].
  unfold initial_data.
  replace (Z.to_nat (Z.of_nat (length headers) + 4))
    with (length (headers ++ [x0d; x0a; x0d; x0a]))
    by (rewrite length_app; simpl; lia).
  by rewrite app_assoc, drop_app_length.
Qed.

Lemma check_response_body_after_headers_witness :
  occurs (str_lit "200") (response_first_line icy_ok_response) /\
  ~ occurs [x0d; x0a; x0d; x0a] (bytes_lit "ICY 200 OK" ++ [x0d; x0a; x0d]) /\
  check_response icy_ok_response = inr msm_1077_frame.
Proof.
  assert (H200 : occurs (str_lit "200") (response_first_line icy_ok_response))
    by (by exists (str_lit "ICY "), (str_lit " OK")).
  assert (Hfirst : ~ occurs [x0d; x0a; x0d; x0a]
                     (bytes_lit "ICY 200 OK" ++ [x0d; x0a; x0d]))
    by (by apply bytes_find_none).
  split; [exact H200|]. split; [exact Hfirst|].
  exact (check_response_body_after_headers (bytes_lit "ICY 200 OK")
           msm_1077_frame H200 Hfirst).
Defined.

(** X8. A response without [\r\n\r\n]: when the accepted response holds
    the blank line [\n\n] instead, and that is its first one, the bytes
    behind it seed the buffer; when it holds no blank line of either form,
    the whole response, status line included, is taken as stream data. *)
Theorem check_response_without_crlf_blank_line (initial_data : list byte) :
  occurs (str_lit "200") (response_first_line initial_data) ->
  ~ occurs [x0d; x0a; x0d; x0a] initial_data ->
  (forall headers body,
     initial_data = headers ++ [x0a; x0a] ++ body ->
     ~ occurs [x0a; x0a] (headers ++ [x0a]) ->
     check_response initial_data = inr body) /\
  (~ occurs [x0a; x0a] initial_data ->
   check_response initial_data = inr initial_data).
Proof.
  intros H200 Hno. rewrite check_response_accept by done.
  apply bytes_find_none in Hno. cbv zeta. rewrite !Hno, Z.eqb_refl.
  split.
  - intros headers body Hdata Hfirst.
    assert (Hf : bytes_find initial_data [x0a; x0a]
                 = Z.of_nat (length headers)).
    { unfold bytes_find. rewrite Hdata. by rewrite find_at_first. }
    rewrite !Hf. f_equal.
    destruct (Z.eqb_spec (Z.of_nat (length headers)) (-1)); [lia|].
    cbn [negb].
    destruct (Z.ltb_spec 0 (Z.of_nat (length headers) + 2)); [|lia].
    rewrite Hdata.
    replace (Z.to_nat (Z.of_nat (length headers) + 2))
      with (length (headers ++ [x0a; x0a]))
      by (rewrite length_app; simpl; lia).
    by rewrite app_assoc, drop_app_length.
  - intros Hnolf. apply bytes_find_none in Hnolf. by rewrite !Hnolf.
Qed.

Lemma check_response_without_crlf_blank_line_witness :
  check_response icy_bare_lf_response = inr msm_1077_frame /\
  check_response icy_no_blank_line_response = inr icy_no_blank_line_response /\
  (_process_buffer icy_no_blank_line_response).2
  = [MessageInfo 1077 20 (Some 7)].
Proof.
  destruct (check_response_without_crlf_blank_line icy_bare_lf_response)
    as [Hlf _].
  { by exists (str_lit "ICY "), (str_lit " OK"). }
  { by apply bytes_find_none. }
  destruct (check_response_without_crlf_blank_line icy_no_blank_line_response)
    as [_ Hnone].
  { by exists (str_lit "ICY "), (str_lit " OK"). }
  { by apply bytes_find_none. }
  split.
  - apply (Hlf (bytes_lit "ICY 200 OK") msm_1077_frame); [reflexivity|].
    by apply bytes_find_none.
  - split; [apply Hnone; by apply bytes_find_none|].
    vm_compute. reflexivity.
Defined.

Lemma read_loop_app reads : forall buffer more,
  (forall e, (read_loop buffer reads).2 = Raised e ->
             read_loop buffer (reads ++ more) = read_loop buffer reads) /\
  (read_loop buffer reads).1 `prefix_of` (read_loop buffer (reads ++ more)).1.
Proof.
  induction reads as [|r reads IH]; intros buffer more;
    rewrite (read_loop_process buffer (_ ++ more)), (read_loop_process buffer);
    destruct (_process_buffer buffer) as [buffer' messages]; cbn [app].
  - split; [done|]. cbn [fst].
    destruct more as [|[[|d data]|e] more]; cbn [fst]; try done.
    destruct (read_loop _ more). cbn [fst]. by apply prefix_app_r.
  - destruct r as [[|d data]|e]; [done| |done].
    destruct (IH (buffer' ++ d :: data) more) as [Hraise Hprefix].
    destruct (read_loop (buffer' ++ d :: data) reads) as [ms1 end1].
    destruct (read_loop (buffer' ++ d :: data) (reads ++ more)) as [ms2 end2].
    cbn [fst snd] in *. split.
    + intros e He. by injection (Hraise e He) as -> ->.
    + by apply prefix_app.
Qed.

(** X9. A session only grows: what [connect] has yielded after some reads
    is a prefix of what it has yielded after more reads, and once it has
    raised, nothing that the socket would still deliver changes the
    messages or the exception. *)
Theorem connect_reads_extend (self : NTRIPClient) (opened : open_result)
    (reads more : list read_result) :
  (connect self opened reads).1
    `prefix_of` (connect self opened (reads ++ more)).1 /\
  (forall e, (connect self opened reads).2 = Raised e ->
             connect self opened (reads ++ more)
             = connect self opened reads).
Proof.
  unfold connect. destruct opened as [|text]; [|done].
  destruct reads as [|[initial_data|e] reads]; cbn [app].
  - split; [apply prefix_nil|done].
  - destruct (check_response initial_data) as [e|buffer]; [done|].
    destruct (read_loop_app reads buffer more) as [Hraise Hprefix]. done.
  - by destruct e.
Qed.

Lemma connect_reads_extend_witness :
  (connect sample_client Opened [ReadData icy_ok_response; ReadData []]).2
  = Raised (ConnectionError (str_lit "Stream closed by server")) /\
  connect sample_client Opened
    ([ReadData icy_ok_response; ReadData []] ++ [ReadData legacy_1003_frame])
  = ([MessageInfo 1077 20 (Some 7)],
     Raised (ConnectionError (str_lit "Stream closed by server"))).
Proof.
  assert (Hend : (connect sample_client Opened
                    [ReadData icy_ok_response; ReadData []]).2
                 = Raised (ConnectionError (str_lit "Stream closed by server")))
    by reflexivity.
  split; [exact Hend|].
  destruct (connect_reads_extend sample_client Opened
              [ReadData icy_ok_response; ReadData []]
              [ReadData legacy_1003_frame]) as [_ Hsame].
  rewrite (Hsame _ Hend). reflexivity.
Defined.

Lemma read_loop_until_final chunks : forall buffer last e rest,
  Forall (fun data => data <> []) chunks ->
  final_read last = Some e ->
  read_loop buffer (map ReadData chunks ++ last :: rest)
  = ((_process_buffer (buffer ++ concat chunks)).2, Raised e).
Proof.
  induction chunks as [|data chunks IH]; intros buffer last e rest Hne Hlast;
    rewrite read_loop_process; cbn [map app concat].
  - rewrite app_nil_r. destruct (_process_buffer buffer) as [buffer' messages].
    destruct last as [[|d data]|e']; simpl in Hlast; by simplify_eq.
  - apply Forall_cons in Hne as [Hdata Hne].
    rewrite process_buffer_app.
    destruct (_process_buffer buffer) as [buffer' messages].
    destruct data as [|d data]; [done|].
    rewrite (IH (buffer' ++ d :: data) last e rest Hne Hlast).
    cbn [fst snd]. by rewrite <- app_assoc.
Qed.

(** X10. A whole session: after an accepted response, the chunks read
    until the socket fails (an empty read, a timeout or an error) are
    decoded as one stream behind the bytes that followed the headers;
    [connect] yields exactly the messages of that stream, in order, then
    raises the failure of the last read, and reads nothing after it. *)
Theorem connect_streams_until_failure (self : NTRIPClient)
    (initial_data buffer : list byte) (chunks : list (list byte))
    (last : read_result) (e : exn) (rest : list read_result) :
  check_response initial_data = inr buffer ->
  Forall (fun data => data <> []) chunks ->
  final_read last = Some e ->
  connect self Opened
    (ReadData initial_data :: map ReadData chunks ++ last :: rest)
  = ((_process_buffer (buffer ++ concat chunks)).2, Raised e).
Proof.
  intros Hcheck Hne Hlast. unfold connect. rewrite Hcheck.
  by apply read_loop_until_final.
Qed.

Lemma connect_streams_until_failure_witness :
  check_response icy_ok_response = inr msm_1077_frame /\
  connect sample_client Opened
    (ReadData icy_ok_response
     :: map ReadData [take 5 legacy_1003_frame; drop 5 legacy_1003_frame]
        ++ ReadData [] :: [ReadData msm_1077_frame])
  = ([MessageInfo 1077 20 (Some 7); MessageInfo 1003 8 (Some 9)],
     Raised (ConnectionError (str_lit "Stream closed by server"))).
Proof.
  assert (Hcheck : check_response icy_ok_response = inr msm_1077_frame)
    by reflexivity.
  split; [exact Hcheck|].
  rewrite (connect_streams_until_failure sample_client icy_ok_response
             msm_1077_frame
             [take 5 legacy_1003_frame; drop 5 legacy_1003_frame]
             (ReadData [])
             (ConnectionError (str_lit "Stream closed by server"))
             [ReadData msm_1077_frame] Hcheck).
  - vm_compute. reflexivity.
  - repeat constructor; discriminate.
  - reflexivity.
Defined.

(** ** The supervisor, continued *)

Section SupervisorRuns.

Context {const : Const}.

(** What a message leaves alone, and what it sets whatever the message. *)
Lemma on_message_fields now c msg_info :
  let c' := on_message now c msg_info in
  timeout c' = timeout c /\
  connected c' = true /\
  error_message c' = error_message c /\
  stop_event c' = stop_event c /\
  satellite_count c' = satellite_count c /\
  message_count c' = message_count c + 1 /\
  last_message_type c' = Some (info_id msg_info) /\
  last_update c' = Some now.2 /\
  connection_time c'
  = (if connected c then connection_time c else Some now.1) /\
  exists summary, last_message c' = Some (str_lit "RTCM " ++ summary).
Proof.
  unfold on_message.
  destruct (truthy (info_satellites msg_info));
    repeat (destruct (between _ _ _);
            [by destruct (connected c); repeat split; eexists|]);
    by destruct (connected c); repeat split; eexists.
Qed.

(** An invariant of the coordinator together with the place where the loop
    waits is kept along every run once every step keeps it. *)
Section PhaseInvariant.

Variable Q : RTCMCoordinator -> phase -> Prop.
Hypothesis Q_step :
  forall c ph ev, Q c ph -> Q (step c ph ev).1.1 (step c ph ev).1.2.

Lemma run_events_phase_invariant evs : forall c ph,
  Q c ph -> Q (run_events c ph evs).1.1 (run_events c ph evs).1.2.
Proof.
  induction evs as [|ev evs IH]; intros c ph HQ; [done|].
  cbn [run_events]. pose proof (Q_step c ph ev HQ) as Hs.
  destruct (step c ph ev) as [[c1 ph1] a1]. cbn [fst snd] in Hs.
  specialize (IH c1 ph1 Hs).
  by destruct (run_events c1 ph1 evs) as [[c2 ph2] a2].
Qed.

Lemma run_phase_invariant c evs :
  Q (loop_head c).1.1 (loop_head c).1.2 ->
  Q (_run c evs).1.1 (_run c evs).1.2.
Proof.
  intros HQ. unfold _run.
  destruct (loop_head c) as [[c1 ph1] a1]. cbn [fst snd] in HQ.
  pose proof (run_events_phase_invariant evs c1 ph1 HQ) as Hr.
  by destruct (run_events c1 ph1 evs) as [[c2 ph2] a2].
Qed.

End PhaseInvariant.

Lemma step_error_cleared c ph ev :
  let Q c ph :=
    (ph = Streaming -> error_message c = None) /\
    (connected c = true -> error_message c = None) in
  Q c ph -> Q (step c ph ev).1.1 (step c ph ev).1.2.
Proof.
  intros Q [Hstream Hconn]. subst Q.
  destruct (on_message_fields (match ev with Yielded now _ => now
                                           | _ => (0, 0) end) c
              (match ev with Yielded _ m => m
                           | _ => MessageInfo 0 0 None end))
    as (_ & _ & Herr & _).
  destruct ph, ev; unfold step, after_session, loop_head, record_failure;
    cbn [with_status stop_event negb];
    destruct (stop_event c) eqn:Hstop;
    cbn [fst snd with_status connected error_message stop_event negb];
    rewrite ?Hstop; cbn [fst snd with_status connected error_message];
    try (split; (done || auto)).
  all: rewrite ?Herr; auto.
Qed.

(** X11. The connection sensor never shows an error while it is on: at
    every point of every run, a connected coordinator has no error message,
    so the [last_error] attribute is only there when [is_on] is false. *)
Theorem last_error_only_when_off (conf_timeout : Z) (evs : list event) :
  let c := (_run (__init__ conf_timeout) evs).1.1 in
  (connected c = true -> error_message c = None) /\
  (forall text, last_error_attribute c = Some text -> is_on c = false).
Proof.
  intros c.
  assert (Hc : connected c = true -> error_message c = None).
  { apply (run_phase_invariant
             (fun c ph => (ph = Streaming -> error_message c = None) /\
                          (connected c = true -> error_message c = None))).
    - intros c0 ph ev. apply step_error_cleared.
    - done. }
  split; [exact Hc|].
  intros text. unfold last_error_attribute, is_on.
  destruct (connected c); [|done]. by rewrite Hc.
Qed.

End SupervisorRuns.

Lemma last_error_only_when_off_witness :
  let c := (@_run (const_py 50) (__init__ 10)
              (sample_events ++ [Failed (OSError (str_lit "reset"))])).1.1 in
  last_error_attribute c = Some (str_lit "reset") /\ is_on c = false.
Proof.
  intros c.
  assert (Herr : last_error_attribute c = Some (str_lit "reset"))
    by reflexivity.
  split; [exact Herr|].
  destruct (@last_error_only_when_off (const_py 50) 10
              (sample_events ++ [Failed (OSError (str_lit "reset"))]))
    as [_ Hoff].
  exact (Hoff _ Herr).
Defined.

Section SupervisorSensors.

Context {const : Const}.

(** *** The last-message sensor *)

Lemma run_message_seen conf_timeout evs :
  let c := (_run (__init__ conf_timeout) evs).1.1 in
  (message_count c = 0 /\ last_message c = None /\
   last_message_type c = None /\ last_update c = None) \/
  (0 < message_count c /\
   (exists summary, last_message c = Some (str_lit "RTCM " ++ summary)) /\
   is_Some (last_message_type c) /\ is_Some (last_update c)).
Proof.
  apply (run_invariant
           (fun c =>
              (message_count c = 0 /\ last_message c = None /\
               last_message_type c = None /\ last_update c = None) \/
              (0 < message_count c /\
               (exists summary,
                  last_message c = Some (str_lit "RTCM " ++ summary)) /\
               is_Some (last_message_type c) /\ is_Some (last_update c))));
    [done| |by left].
  intros now c msg_info Hc. right.
  destruct (on_message_fields now c msg_info)
    as (_ & _ & _ & _ & _ & Hcount & Htype & Hupd & _ & Hlast).
  rewrite Hcount, Htype, Hupd.
  split; [destruct Hc as [[-> _]|[? _]]; lia|].
  split; [exact Hlast|]. by split.
Qed.

(** X12. The last-message sensor shows ["No data"] exactly until the first
    message is processed: at every point of every run its value is
    ["No data"] if and only if [message_count] is 0, and otherwise it is the
    summary of the last message, which starts with ["RTCM "]. *)
Theorem last_message_sensor_no_data (conf_timeout : Z) (evs : list event) :
  let c := (_run (__init__ conf_timeout) evs).1.1 in
  (last_message_native_value c = str_lit "No data" <-> message_count c = 0) /\
  (message_count c <> 0 ->
   exists summary,
     last_message_native_value c = str_lit "RTCM " ++ summary /\
     last_message c = Some (str_lit "RTCM " ++ summary)).
Proof.
  intros c. unfold last_message_native_value.
  destruct (run_message_seen conf_timeout evs)
    as [(Hcount & Hlast & _)|(Hcount & [summary Hlast] & _)];
    fold c in Hcount, Hlast; rewrite Hlast.
  - split; [done|]. intros Hne. by destruct Hne.
  - change (str_lit "RTCM " ++ summary)
      with (82 :: 84 :: 67 :: 77 :: 32 :: summary).
    split; [|by exists summary].
    split; [discriminate|lia].
Qed.

(** *** The satellite sensor *)

(** The invariant scheme of [run_invariant], for runs whose messages are
    in the decoder's ranges. *)
Section DecodedInvariant.

Variable P : RTCMCoordinator -> Prop.
Hypothesis P_with_status :
  forall conn err stop c, P c -> P (with_status conn err stop c).
Hypothesis P_on_message :
  forall now c msg_info,
    well_formed_message msg_info -> P c -> P (on_message now c msg_info).

Lemma step_decoded_invariant c ph ev :
  decoded_events [ev] -> P c -> P (step c ph ev).1.1.
Proof.
  intros Hev HP. unfold decoded_events in Hev.
  rewrite Forall_singleton in Hev.
  assert (Hhead : forall c, P c -> P (loop_head c).1.1).
  { intros c0 H0. unfold loop_head. destruct (stop_event c0); cbn; auto. }
  assert (Hafter : forall c, P c -> P (after_session c).1.1).
  { intros c0 H0. unfold after_session.
    destruct (stop_event c0) eqn:Hs; cbn; [|done].
    unfold loop_head. by rewrite Hs. }
  destruct ph, ev; cbn; auto.
  - destruct (stop_event c); cbn; auto.
  - pose proof (Hafter (record_failure e c)
                  ltac:(by apply P_with_status)) as H.
    by destruct (after_session (record_failure e c)) as [[? ?] ?].
  - by apply P_with_status.
Qed.

Lemma run_events_decoded_invariant evs : forall c ph,
  decoded_events evs -> P c -> P (run_events c ph evs).1.1.
Proof.
  induction evs as [|ev evs IH]; intros c ph Hevs HP; [done|].
  apply Forall_cons in Hevs as [Hev Hevs]. cbn [run_events].
  pose proof (step_decoded_invariant c ph ev
                ltac:(by apply Forall_singleton) HP) as Hs.
  destruct (step c ph ev) as [[c1 ph1] a1]. cbn [fst] in Hs.
  specialize (IH c1 ph1 Hevs Hs).
  by destruct (run_events c1 ph1 evs) as [[c2 ph2] a2].
Qed.

Lemma run_decoded_invariant c evs :
  decoded_events evs -> P c -> P (_run c evs).1.1.
Proof.
  intros Hevs HP. unfold _run.
  assert (Hh : P (loop_head c).1.1).
  { unfold loop_head. destruct (stop_event c); cbn; auto. }
  destruct (loop_head c) as [[c1 ph1] a1]. cbn [fst] in Hh.
  pose proof (run_events_decoded_invariant evs c1 ph1 Hevs Hh) as Hr.
  by destruct (run_events c1 ph1 evs) as [[c2 ph2] a2].
Qed.

End DecodedInvariant.

Lemma on_message_counters_bounded now c msg_info :
  well_formed_message msg_info ->
  let bounded c :=
    0 <= gps_satellites c <= 64 /\ 0 <= glonass_satellites c <= 64 /\
    0 <= galileo_satellites c <= 64 /\ 0 <= beidou_satellites c <= 64 in
  bounded c -> bounded (on_message now c msg_info).
Proof.
  intros (_ & _ & Hsat) bounded Hc. subst bounded. unfold on_message.
  destruct Hc as (Hgps & Hglo & Hgal & Hbei).
  destruct (info_satellites msg_info) as [n|]; [|by cbn].
  specialize (Hsat n eq_refl). cbn [truthy default].
  destruct (negb (n =? 0)); [|by cbn].
  repeat (destruct (between _ _ _); [cbn; lia|]). by cbn.
Qed.

(** X13. Satellite counters of a run fed by the decoder: each
    constellation counter is between 0 and 64 and the total between 0 and
    256; in the attributes of the satellite sensor, [total_satellites]
    comes first and is the sum of the constellation entries that follow,
    each of which is at least 1. *)
Theorem satellite_attributes_sum (conf_timeout : Z) (evs : list event) :
  decoded_events evs ->
  let c := (_run (__init__ conf_timeout) evs).1.1 in
  (0 <= gps_satellites c <= 64 /\ 0 <= glonass_satellites c <= 64 /\
   0 <= galileo_satellites c <= 64 /\ 0 <= beidou_satellites c <= 64 /\
   0 <= total_satellites c <= 256) /\
  head (satellite_attributes c)
  = Some ("total_satellites"%string, total_satellites c) /\
  foldr Z.add 0 (map snd (tail (satellite_attributes c)))
  = total_satellites c /\
  Forall (fun entry => 1 <= entry.2) (tail (satellite_attributes c)).
Proof.
  intros Hevs c.
  assert (Hb : 0 <= gps_satellites c <= 64 /\
               0 <= glonass_satellites c <= 64 /\
               0 <= galileo_satellites c <= 64 /\
               0 <= beidou_satellites c <= 64).
  { apply (run_decoded_invariant
             (fun c => 0 <= gps_satellites c <= 64 /\
                       0 <= glonass_satellites c <= 64 /\
                       0 <= galileo_satellites c <= 64 /\
                       0 <= beidou_satellites c <= 64)); [done| |done|].
    - intros now c0 msg_info. apply on_message_counters_bounded.
    - cbn. lia. }
  pose proof (run_total conf_timeout evs) as Hsum. cbv zeta in Hsum.
  fold c in Hsum. destruct Hb as (Hgps & Hglo & Hgal & Hbei).
  split; [lia|]. split; [done|].
  unfold satellite_attributes. cbn [tail app].
  split.
  - rewrite !map_app, !foldr_app.
    destruct (Z.ltb_spec 0 (gps_satellites c)),
      (Z.ltb_spec 0 (glonass_satellites c)),
      (Z.ltb_spec 0 (galileo_satellites c)),
      (Z.ltb_spec 0 (beidou_satellites c)); cbn; lia.
  - rewrite !Forall_app.
    destruct (Z.ltb_spec 0 (gps_satellites c)),
      (Z.ltb_spec 0 (glonass_satellites c)),
      (Z.ltb_spec 0 (galileo_satellites c)),
      (Z.ltb_spec 0 (beidou_satellites c));
      repeat split; repeat constructor; cbn; lia.
Qed.

(** *** The message-types sensor *)

Lemma str_of_int_head n :
  exists c rest, str_of_int n = c :: rest /\ c <> 78.
Proof.
  unfold str_of_int, NilZero.string_of_int, NilZero.string_of_uint.
  destruct (Z.to_int n) as [[]|[]]; cbn;
    eexists _, _; (split; [reflexivity|discriminate]).
Qed.

Lemma join_head sep part parts c rest :
  part = c :: rest -> exists rest', join sep (part :: parts) = c :: rest'.
Proof. intros ->. destruct parts; cbn; eauto. Qed.

Lemma StronglySorted_le_lt s :
  StronglySorted Z.le s -> NoDup s -> StronglySorted Z.lt s.
Proof.
  induction 1 as [|x s Hs IH Hx]; intros Hnd; [constructor|].
  apply NoDup_cons in Hnd as [Hnotin Hnd].
  constructor; [by apply IH|].
  apply Forall_forall. intros y Hy.
  rewrite Forall_forall in Hx. specialize (Hx y Hy).
  assert (x <> y) by (by intros ->). lia.
Qed.

Lemma sorted_strict l :
  NoDup l -> StronglySorted Z.lt (sorted l) /\ sorted l ≡ₚ l.
Proof.
  intros Hnd. unfold sorted.
  pose proof (merge_sort_Permutation Z.le l) as Hperm.
  split; [|done]. apply StronglySorted_le_lt; [|by rewrite Hperm].
  apply Sorted_StronglySorted; [apply _|apply Sorted_merge_sort, _].
Qed.

Lemma run_types_seen conf_timeout evs :
  0 < MAX_MESSAGE_TYPES ->
  let c := (_run (__init__ conf_timeout) evs).1.1 in
  0 <= message_count c /\ (message_count c = 0 <-> message_types c = []).
Proof.
  intros Hmax.
  apply (run_invariant
           (fun c => 0 <= message_count c /\
                     (message_count c = 0 <-> message_types c = [])));
    [done| |done].
  intros now c msg_info [Hcount Hiff].
  destruct (on_message_fields now c msg_info)
    as (_ & _ & _ & _ & _ & -> & _).
  rewrite on_message_message_types. split; [lia|].
  split; [lia|]. intros Hnil. exfalso.
  destruct (decide (info_id msg_info ∈ message_types c)) as [Hin|Hnew].
  - rewrite track_message_type_seen in Hnil by done.
    rewrite Hnil in Hin. by apply not_elem_of_nil in Hin.
  - destruct (track_message_type_new _ _ Hmax Hnew) as (evicted & Heq & Hev).
    rewrite Hnil, app_nil_r in Heq. apply (f_equal length) in Heq.
    rewrite length_app in Heq. simpl in Heq. lia.
Qed.

(** X14. The message-types sensor, with a positive [MAX_MESSAGE_TYPES]:
    at every point of every run [message_types_list] is strictly
    increasing and holds exactly the ids the coordinator has kept,
    [unique_count] is its length and is at most [MAX_MESSAGE_TYPES], and
    the value of the sensor is ["None"] if and only if no message has been
    processed yet. *)
Theorem message_types_sensor (conf_timeout : Z) (evs : list event) :
  0 < MAX_MESSAGE_TYPES ->
  let c := (_run (__init__ conf_timeout) evs).1.1 in
  let attributes := message_types_attributes c in
  StronglySorted Z.lt attributes.1 /\
  attributes.1 ≡ₚ message_types c /\
  attributes.2 = Z.of_nat (length attributes.1) /\
  attributes.2 <= MAX_MESSAGE_TYPES /\
  (message_types_native_value c = str_lit "None" <-> message_count c = 0).
Proof.
  intros Hmax c attributes. subst attributes.
  unfold message_types_attributes. cbn [fst snd].
  destruct (run_message_types conf_timeout evs Hmax) as [Hnd Hlen].
  destruct (run_types_seen conf_timeout evs Hmax) as [_ Hseen].
  fold c in Hnd, Hlen, Hseen.
  destruct (sorted_strict _ Hnd) as [Hsorted Hperm].
  split; [done|]. split; [done|].
  split; [by rewrite Hperm|]. split; [done|].
  rewrite Hseen. unfold message_types_native_value.
  destruct (message_types c) as [|t types] eqn:Htypes; [done|].
  split; [|done]. intros Hnone. exfalso.
  destruct (sorted (t :: types)) as [|s ss] eqn:Hs.
  { by apply Permutation_length in Hperm. }
  destruct (str_of_int_head s) as (ch & rest & Hhead & Hch).
  change (map str_of_int (s :: ss))
    with (str_of_int s :: map str_of_int ss) in Hnone.
  destruct (join_head (str_lit ",") _ (map str_of_int ss) _ _ Hhead)
    as [rest' Hjoin].
  pose proof (eq_trans (eq_sym Hjoin) Hnone) as Heq.
  by injection Heq.
Qed.

End SupervisorSensors.

Section SupervisorSessions.

Context {const : Const}.

(** *** Sessions one after the other *)

Lemma run_events_app evs1 : forall c ph evs2,
  run_events c ph (evs1 ++ evs2)
  = let '(c1, ph1, actions1) := run_events c ph evs1 in
    let '(c2, ph2, actions2) := run_events c1 ph1 evs2 in
    (c2, ph2, actions1 ++ actions2).
Proof.
  induction evs1 as [|ev evs1 IH]; intros c ph evs2; cbn [app run_events].
  - by destruct (run_events c ph evs2) as [[c2 ph2] a2].
  - destruct (step c ph ev) as [[c0 ph0] a0]. rewrite IH.
    destruct (run_events c0 ph0 evs1) as [[c1 ph1] a1].
    destruct (run_events c1 ph1 evs2) as [[c2 ph2] a2].
    by rewrite app_assoc.
Qed.

Lemma run_events_yields msgs : forall c,
  stop_event c = false ->
  exists c',
    run_events c Streaming (yields msgs) = (c', Streaming, []) /\
    stop_event c' = false /\ timeout c' = timeout c /\
    message_count c' = message_count c + Z.of_nat (length msgs) /\
    match msgs with
    | [] => c' = c
    | m :: _ =>
      connected c' = true /\
      connection_time c'
      = (if connected c then connection_time c else Some m.1.1) /\
      last_update c' = (fun m => m.1.2) <$> last msgs /\
      last_message_type c' = (fun m => info_id m.2) <$> last msgs
    end.
Proof.
  induction msgs as [|m msgs IH]; intros c Hstop.
  - exists c. cbn. repeat split; (done || lia).
  - cbn [yields map run_events step]. rewrite Hstop.
    destruct (on_message_fields m.1 c m.2)
      as (Htime & Hconn & _ & Hstop' & _ & Hcount & Htype & Hupd & Hct & _).
    rewrite Hstop in Hstop'.
    destruct (IH (on_message m.1 c m.2) Hstop')
      as (c' & Hrun & Hs & Ht & Hc & Hrest).
    fold (yields msgs). rewrite Hrun. exists c'.
    split; [done|]. split; [done|]. split; [congruence|].
    split; [rewrite Hc, Hcount; cbn [length]; lia|].
    destruct msgs as [|m' msgs].
    + subst c'. by rewrite Hconn, Hct, Hupd, Htype.
    + destruct Hrest as (Hconn' & Hct' & Hupd' & Htype').
      rewrite Hconn in Hct'. rewrite Hct', Hct.
      split; [done|]. split; [done|]. split; [exact Hupd'|exact Htype'].
Qed.

(** X15. Connection time and last update of a streaming session: while the
    session yields messages, no action is taken and the loop keeps waiting
    for the next one; the coordinator is connected, [connection_time] is
    the clock reading taken for the first message if the coordinator was
    disconnected before (and is left alone if it was connected), and
    [last_update] is the reading taken for the latest message. *)
Theorem streaming_session_times (c : RTCMCoordinator)
    (first : Z * Z * message_info) (others : list (Z * Z * message_info)) :
  stop_event c = false ->
  let after := run_events c Streaming (yields (first :: others)) in
  after.1.2 = Streaming /\ after.2 = [] /\
  connected after.1.1 = true /\
  connection_time after.1.1
  = (if connected c then connection_time c else Some first.1.1) /\
  last_update after.1.1 = (fun m => m.1.2) <$> last (first :: others) /\
  last_message_type after.1.1
  = (fun m => info_id m.2) <$> last (first :: others) /\
  message_count after.1.1
  = message_count c + Z.of_nat (length (first :: others)).
Proof.
  intros Hstop after. subst after.
  destruct (run_events_yields (first :: others) c Hstop)
    as (c' & -> & _ & _ & Hcount & Hconn & Hct & Hupd & Htype).
  cbn [fst snd]. done.
Qed.

Lemma run_events_session c session :
  stop_event c = false ->
  exists c',
    run_events c Streaming (session_events session)
    = (c', Streaming, [Notify; Sleep 5; Connect (timeout c)]) /\
    stop_event c' = false /\ timeout c' = timeout c /\
    message_count c' = message_count c + Z.of_nat (length session.1).
Proof.
  intros Hstop. unfold session_events. rewrite run_events_app.
  destruct (run_events_yields session.1 c Hstop)
    as (c1 & -> & Hs & Ht & Hc & _).
  cbn [run_events]. unfold step at 1. unfold after_session, record_failure.
  cbn [with_status stop_event]. rewrite Hs. cbn [negb].
  unfold step, loop_head. cbn [with_status stop_event]. rewrite ?Hs.
  cbn [with_status timeout app]. rewrite Ht.
  eexists. split; [reflexivity|]. cbn. done.
Qed.

Lemma run_events_sessions sessions : forall c,
  stop_event c = false ->
  exists c',
    run_events c Streaming (concat (map session_events sessions))
    = (c', Streaming,
       concat (replicate (length sessions)
                 [Notify; Sleep 5; Connect (timeout c)])) /\
    stop_event c' = false /\ timeout c' = timeout c /\
    message_count c'
    = message_count c
      + Z.of_nat (sum_list_with (fun s => length s.1) sessions).
Proof.
  induction sessions as [|session sessions IH]; intros c Hstop.
  - exists c. cbn. repeat split; (done || lia).
  - cbn [map concat]. rewrite run_events_app.
    destruct (run_events_session c session Hstop)
      as (c1 & -> & Hs1 & Ht1 & Hc1).
    destruct (IH c1 Hs1) as (c2 & -> & Hs2 & Ht2 & Hc2).
    exists c2. rewrite Ht1. cbn [length replicate concat].
    split; [done|]. split; [done|]. split; [congruence|].
    cbn [sum_list_with]. lia.
Qed.

Lemma session_events_listeners_return sessions msgs :
  listeners_return (concat (map session_events sessions) ++ yields msgs).
Proof.
  apply Forall_app. split.
  - apply Forall_concat, Forall_forall. intros evs Hin.
    apply list_elem_of_fmap in Hin as (session & -> & _).
    apply Forall_app. split.
    + apply Forall_forall. intros ev Hev.
      by apply list_elem_of_fmap in Hev as (m & -> & _).
    + by repeat apply Forall_cons_2.
  - apply Forall_forall. intros ev Hev.
    by apply list_elem_of_fmap in Hev as (m & -> & _).
Qed.

(** X16. Accounting of a run through any number of failed sessions in
    which every callback returns from every notification: the loop makes
    one connection attempt at the start and exactly one more after every
    failure, each one announced by a notification and a sleep of 5 seconds;
    it is then streaming again, and [message_count] is the number of
    messages of all the sessions together: reconnecting does not reset it.
    A failure in whose notification a callback raises ends such a run: it
    adds that one notification, and no sleep and no connection attempt,
    whatever follows. *)
Theorem run_sessions_accounting (conf_timeout : Z)
    (sessions : list (list (Z * Z * message_info) * exn))
    (msgs : list (Z * Z * message_info)) :
  let evs := concat (map session_events sessions) ++ yields msgs in
  let after := _run (__init__ conf_timeout) evs in
  listeners_return evs /\
  after.1.2 = Streaming /\
  after.2 = retry_actions conf_timeout (length sessions) /\
  message_count after.1.1
  = Z.of_nat (sum_list_with (fun s => length s.1) sessions + length msgs) /\
  (forall e more,
     let ended :=
       _run (__init__ conf_timeout) (evs ++ ListenerRaised e :: more) in
     ended.1.2 = Finished /\
     ended.2 = retry_actions conf_timeout (length sessions) ++ [Notify] /\
     connected ended.1.1 = false /\
     message_count ended.1.1 = message_count after.1.1).
Proof.
  intros evs after.
  split; [apply session_events_listeners_return|].
  subst after evs. unfold _run, loop_head.
  cbn [__init__ stop_event with_status timeout connected].
  set (c0 := with_status false None false (__init__ conf_timeout)).
  destruct (run_events_sessions sessions c0 eq_refl)
    as (c1 & Hrun1 & Hs1 & Ht1 & Hc1).
  destruct (run_events_yields msgs c1 Hs1) as (c2 & Hrun2 & _ & _ & Hc2 & _).
  change (message_count c0) with 0 in Hc1.
  change (timeout c0) with conf_timeout in Hrun1.
  rewrite run_events_app, Hrun1, Hrun2. cbn [fst snd].
  split; [done|]. split; [by rewrite app_nil_r|]. split; [lia|].
  intros e more.
  rewrite !run_events_app, Hrun1, Hrun2. cbn [run_events step].
  rewrite run_events_finished. cbn [fst snd].
  split; [done|]. split; [by rewrite !app_nil_r|]. done.
Qed.

(** *** After a stop request *)

Lemma step_stopped c ph ev :
  stop_event c = true ->
  stop_event (step c ph ev).1.1 = true /\
  statistics (step c ph ev).1.1 = statistics c /\
  Forall (fun a => a = Notify) (step c ph ev).2.
Proof.
  intros Hstop.
  destruct ph, ev; unfold step, after_session, loop_head, record_failure;
    cbn [with_status stop_event negb]; rewrite ?Hstop;
    cbn [fst snd with_status stop_event negb]; rewrite ?Hstop;
    cbn [fst snd]; repeat split; auto.
Qed.

(** X17. A stop request is final: once the stop event is set, whatever
    happens next, the loop processes no further message (the statistics of
    the coordinator stay as they are), starts no connection attempt and no
    sleep (its only possible action is one notification of a failure), and
    it ends at the first message, failure or end of sleep that reaches
    it. *)
Theorem run_stopped (c : RTCMCoordinator) (ph : phase) (evs : list event) :
  stop_event c = true ->
  let after := run_events c ph evs in
  stop_event after.1.1 = true /\
  statistics after.1.1 = statistics c /\
  Forall (fun a => a = Notify) after.2 /\
  (forall now msg_info,
     (step c Streaming (Yielded now msg_info)).1.2 = Finished) /\
  (forall e, (step c Streaming (Failed e)).1.2 = Finished) /\
  (step c Sleeping Woke).1.2 = Finished.
Proof.
  intros Hstop after. subst after.
  assert (Hrun : forall evs c ph,
            stop_event c = true ->
            stop_event (run_events c ph evs).1.1 = true /\
            statistics (run_events c ph evs).1.1 = statistics c /\
            Forall (fun a => a = Notify) (run_events c ph evs).2).
  { clear. induction evs as [|ev evs IH]; intros c ph Hstop; [done|].
    cbn [run_events].
    destruct (step_stopped c ph ev Hstop) as (Hs & Hstat & Hact).
    destruct (step c ph ev) as [[c1 ph1] a1]. cbn [fst snd] in *.
    destruct (IH c1 ph1 Hs) as (Hs' & Hstat' & Hact').
    destruct (run_events c1 ph1 evs) as [[c2 ph2] a2]. cbn [fst snd] in *.
    split; [done|]. split; [congruence|]. by apply Forall_app. }
  destruct (Hrun evs c ph Hstop) as (? & ? & ?).
  repeat split; try done;
    intros; unfold step, after_session, loop_head, record_failure;
    cbn [with_status stop_event negb]; by rewrite ?Hstop.
Qed.

End SupervisorSessions.

(** ** Listeners *)

Section ListenerProperties.

Context {callback : Type} `{EqDecision callback}.

Lemma list_remove_absent (cb : callback) ls :
  cb ∉ ls -> list_remove cb (ls ++ [cb]) = ls.
Proof.
  induction ls as [|x ls IH]; intros Hnot; cbn.
  - by rewrite decide_True.
  - apply not_elem_of_cons in Hnot as [Hne Hnot].
    by rewrite decide_False, IH.
Qed.

Lemma list_remove_present (cb : callback) ls :
  cb ∈ ls ->
  cb :: list_remove cb ls ≡ₚ ls /\
  filter (fun x => x <> cb) (list_remove cb ls)
  = filter (fun x => x <> cb) ls.
Proof.
  induction ls as [|x ls IH]; intros Hin; [by apply elem_of_nil in Hin|].
  cbn [list_remove]. destruct (decide (cb = x)) as [<-|Hne].
  - split; [done|]. by rewrite filter_cons_False by (by intros ?).
  - apply elem_of_cons in Hin as [?|Hin]; [done|].
    destruct (IH Hin) as [Hperm Hfilter]. split.
    + by rewrite Permutation_swap, Hperm.
    + rewrite !filter_cons_True by (by intros ->). by rewrite Hfilter.
Qed.

Lemma list_remove_first (cb : callback) before rest :
  cb ∉ before -> list_remove cb (before ++ cb :: rest) = before ++ rest.
Proof.
  induction before as [|x before IH]; intros Hnot; cbn.
  - by rewrite decide_True.
  - apply not_elem_of_cons in Hnot as [Hne Hnot].
    by rewrite decide_False, IH.
Qed.

(** X18. Registering a callback and removing it again: the listeners are
    the same as before, up to their order.  When the callback was not
    registered before, the list is exactly as it was.  When it was, its
    earliest registration is the one that goes and the new one stays at the
    end: the callbacks in front of the earliest registration and those
    behind it keep their places, followed by the callback. *)
Theorem register_then_remove_listener (update_callback : callback)
    (_listeners : list callback) :
  remove_listener update_callback
    (register_listener update_callback _listeners) ≡ₚ _listeners /\
  (update_callback ∉ _listeners ->
   remove_listener update_callback
     (register_listener update_callback _listeners) = _listeners) /\
  (forall before after,
     _listeners = before ++ update_callback :: after ->
     update_callback ∉ before ->
     remove_listener update_callback
       (register_listener update_callback _listeners)
     = before ++ after ++ [update_callback]).
Proof.
  unfold remove_listener, register_listener.
  assert (Hin : update_callback ∈ _listeners ++ [update_callback])
    by (apply elem_of_app; right; apply list_elem_of_here).
  rewrite bool_decide_eq_true_2 by done. split; [|split].
  - destruct (list_remove_present _ _ Hin) as [Hperm _].
    apply (Permutation_cons_inv (a := update_callback)).
    by rewrite Hperm, Permutation_app_comm.
  - apply list_remove_absent.
  - intros before after -> Hnot.
    rewrite <- app_assoc. cbn [app]. by apply list_remove_first.
Qed.

(** X19. Removing a listener takes away one registration of that callback
    and nothing else: a callback that is not registered leaves the list as
    it is; one that is registered loses exactly one entry, and the other
    callbacks stay, in their order. *)
Theorem remove_listener_once (update_callback : callback)
    (_listeners : list callback) :
  (update_callback ∉ _listeners ->
   remove_listener update_callback _listeners = _listeners) /\
  (update_callback ∈ _listeners ->
   update_callback :: remove_listener update_callback _listeners
     ≡ₚ _listeners /\
   S (length (remove_listener update_callback _listeners))
   = length _listeners /\
   filter (fun x => x <> update_callback)
     (remove_listener update_callback _listeners)
   = filter (fun x => x <> update_callback) _listeners).
Proof.
  unfold remove_listener. split; intros Hin.
  - by rewrite bool_decide_eq_false_2.
  - rewrite bool_decide_eq_true_2 by done.
    destruct (list_remove_present _ _ Hin) as [Hperm Hfilter].
    split; [done|]. split; [|done].
    by apply Permutation_length in Hperm.
Qed.

End ListenerProperties.

(** ** The connection test of the configuration flow *)

Lemma read_loop_first_messages buffer reads :
  (_process_buffer buffer).2 `prefix_of` (read_loop buffer reads).1.
Proof.
  rewrite read_loop_process.
  destruct (_process_buffer buffer) as [buffer' messages]. cbn [snd].
  destruct reads as [|[[|d data]|e] reads]; cbn [fst]; try done.
  destruct (read_loop _ reads). cbn [fst]. by apply prefix_app_r.
Qed.

Lemma process_buffer_frame_first frame rest :
  at_marker frame ->
  Z.of_nat (length frame) = declared_length frame + 6 ->
  exists m ms, (_process_buffer (frame ++ rest)).2 = m :: ms.
Proof.
  intros Hm Hlen.
  assert (Hsize : frame_size frame = length frame)
    by (unfold frame_size; lia).
  pose proof (frame_size_ge frame) as Hge.
  destruct (header_app frame rest ltac:(lia)) as (_ & _ & Hs & Hma).
  rewrite process_buffer_decode, trim_to_marker_at_marker by auto.
  rewrite decode_frame by (auto; rewrite Hs, length_app; lia).
  cbn [snd]. eauto.
Qed.

Lemma read_loop_without_marker reads : forall buffer,
  no_marker buffer -> reads_without_marker reads ->
  (read_loop buffer reads).1 = [].
Proof.
  induction reads as [|r reads IH]; intros buffer Hbuffer Hreads;
    rewrite read_loop_process;
    rewrite <- (app_nil_r buffer), process_buffer_decode,
      trim_to_marker_no_marker by done;
    change (decode (trim_to_marker [])) with (@nil byte, @nil message_info).
  - done.
  - apply Forall_cons in Hreads as [Hr Hreads].
    destruct r as [[|d data]|e]; [done| |done].
    specialize (IH ([] ++ d :: data) Hr Hreads).
    destruct (read_loop ([] ++ d :: data) reads). cbn [fst] in *.
    by rewrite IH.
Qed.

(** X20. The connection test succeeds as soon as the first chunk holds a
    complete frame behind the accepted headers: the flow gets its title,
    whatever the socket delivers afterwards. *)
Theorem validate_connection_first_frame (name : pystr) (client : NTRIPClient)
    (initial_data frame rest : list byte) (reads : list read_result) :
  check_response initial_data = inr (frame ++ rest) ->
  at_marker frame ->
  Z.of_nat (length frame) = declared_length frame + 6 ->
  validate_connection name client Opened (ReadData initial_data :: reads)
  = Validated name.
Proof.
  intros Hcheck Hm Hlen. unfold validate_connection, connect.
  rewrite Hcheck.
  destruct (process_buffer_frame_first frame rest Hm Hlen) as (m & ms & Hms).
  pose proof (read_loop_first_messages (frame ++ rest) reads) as Hprefix.
  rewrite Hms in Hprefix. destruct Hprefix as [more Hmore].
  destruct (read_loop (frame ++ rest) reads) as [messages ending].
  cbn [fst] in Hmore. by rewrite Hmore.
Qed.

(** X21. The connection test never succeeds without a frame: a response
    whose first line lacks ["200"] is reported as
    ["Connection failed: NTRIP server returned: <line>"], and a stream in
    which the marker [0xD3] never occurs ends in [CannotConnect] however
    long it goes on. *)
Theorem validate_connection_needs_frame (name : pystr)
    (client : NTRIPClient) (initial_data : list byte)
    (reads : list read_result) :
  (initial_data <> [] ->
   ~ occurs (str_lit "200") (response_first_line initial_data) ->
   validate_connection name client Opened (ReadData initial_data :: reads)
   = CannotConnect (str_lit "Connection failed: NTRIP server returned: "
                    ++ response_first_line initial_data)) /\
  (forall buffer,
     check_response initial_data = inr buffer ->
     no_marker buffer -> reads_without_marker reads ->
     exists msg,
       validate_connection name client Opened
         (ReadData initial_data :: reads) = CannotConnect msg).
Proof.
  unfold validate_connection, connect. split.
  - intros Hne Hno. unfold check_response.
    destruct initial_data as [|b bs]; [done|].
    fold (response_first_line (b :: bs)).
    destruct (str_contains (str_lit "200") (response_first_line (b :: bs)))
      eqn:Hc; [by apply str_contains_spec in Hc|].
    cbn [negb]. reflexivity.
  - intros buffer -> Hbuffer Hreads.
    pose proof (read_loop_without_marker reads buffer Hbuffer Hreads) as Hnone.
    destruct (read_loop buffer reads) as [messages ending].
    cbn [fst] in Hnone. subst messages.
    destruct ending as [[]|]; eauto.
Qed.

(** ** Constellation counters *)

Section ConstellationCounters.

Context {const : Const}.

(** X22. A count overwrites the counter of its constellation and no other:
    a message with a non-zero count [n] sets the GPS counter to [n] for the
    ids 1001-1004 and 1074-1077, the GLONASS counter for 1009-1012 and
    1084-1087, the Galileo counter for 1094-1097 and the BeiDou counter for
    1124-1127, leaving the three other counters as they were, and the total
    becomes the sum of the four; the earlier count of that constellation is
    not added to. *)
Theorem on_message_overwrites (now : Z * Z) (c : RTCMCoordinator)
    (msg_id len n : Z) :
  n <> 0 ->
  let c' := on_message now c (MessageInfo msg_id len (Some n)) in
  let counters c :=
    (gps_satellites c, glonass_satellites c, galileo_satellites c,
     beidou_satellites c) in
  (1001 <= msg_id <= 1004 \/ 1074 <= msg_id <= 1077 ->
   counters c' = (n, glonass_satellites c, galileo_satellites c,
                  beidou_satellites c)) /\
  (1009 <= msg_id <= 1012 \/ 1084 <= msg_id <= 1087 ->
   counters c' = (gps_satellites c, n, galileo_satellites c,
                  beidou_satellites c)) /\
  (1094 <= msg_id <= 1097 ->
   counters c' = (gps_satellites c, glonass_satellites c, n,
                  beidou_satellites c)) /\
  (1124 <= msg_id <= 1127 ->
   counters c' = (gps_satellites c, glonass_satellites c,
                  galileo_satellites c, n)) /\
  total_satellites c'
  = gps_satellites c' + glonass_satellites c' + galileo_satellites c'
    + beidou_satellites c'.
Proof.
  intros Hn c' counters. subst c' counters. unfold on_message.
  cbn [info_id info_satellites truthy default].
  destruct (Z.eqb_spec n 0) as [|_]; [done|]. cbn [negb]. unfold between.
  repeat match goal with
         | |- context [(?a <=? ?b) && _] =>
           destruct (Z.leb_spec a b); cbn [andb]
         | |- context [?a <=? ?b] =>
           destruct (Z.leb_spec a b); cbn [andb]
         end;
    cbn; repeat split; intros; (reflexivity || lia).
Qed.

End ConstellationCounters.

(** ** YAML setup *)

Lemma missing_fields_nil stream_conf :
  missing_fields stream_conf = [] <-> complete stream_conf.
Proof.
  unfold missing_fields, complete.
  rewrite !filter_cons, filter_nil.
  destruct (stream_conf !! "host"%string), (stream_conf !! "port"%string),
    (stream_conf !! "mountpoint"%string);
    repeat (destruct (decide _); try done);
    split; try done; intros (? & ? & ?);
    repeat match goal with H : is_Some None |- _ => by destruct H end.
Qed.

(** The loop over streams that all have a name: it sets up the complete
    ones, in order. *)
Lemma setup_streams_named streams : forall data,
  Forall named streams ->
  exists data',
    setup_streams streams data
    = (data', flat_map stream_actions (filter complete streams), None) /\
    forall name,
      data' !! name
      = match last (filter (fun sc => sc !! "name"%string = Some name)
                      (filter complete streams)) with
        | Some stream_conf => Some stream_conf
        | None => data !! name
        end.
Proof.
  induction streams as [|sc streams IH]; intros data Hnamed.
  - exists data. by split.
  - apply Forall_cons in Hnamed as [[name Hname] Hnamed].
    cbn [setup_streams]. rewrite Hname.
    destruct (missing_fields sc) as [|f fs] eqn:Hmiss.
    + apply missing_fields_nil in Hmiss.
      destruct (IH (<[name := sc]> data) Hnamed) as (data' & -> & Hlookup).
      exists data'. rewrite filter_cons_True by done.
      cbn [flat_map]. unfold stream_actions at 2. rewrite Hname.
      split; [done|]. intros name'. rewrite Hlookup.
      destruct (decide (name = name')) as [<-|Hne].
      * rewrite (filter_cons_True _ sc) by done.
        destruct (filter _ (filter complete streams)) as [|x l];
          [by rewrite lookup_insert_eq|].
        rewrite last_cons_cons.
        destruct (last (x :: l)) eqn:Hlast; [done|].
        by apply last_None in Hlast.
      * rewrite (filter_cons_False _ sc) by congruence.
        destruct (last _); [done|]. by rewrite lookup_insert_ne.
    + destruct (IH data Hnamed) as (data' & -> & Hlookup).
      exists data'. rewrite filter_cons_False; [done|].
      intros Hc. apply missing_fields_nil in Hc. congruence.
Qed.

Lemma setup_streams_app before : forall rest data,
  Forall named before ->
  setup_streams (before ++ rest) data
  = let '(data1, actions1, _) := setup_streams before data in
    let '(data2, actions2, error) := setup_streams rest data1 in
    (data2, actions1 ++ actions2, error).
Proof.
  induction before as [|sc before IH]; intros rest data Hnamed.
  - cbn. by destruct (setup_streams rest data) as [[? ?] ?].
  - apply Forall_cons in Hnamed as [[name Hname] Hnamed].
    cbn [app setup_streams]. rewrite Hname.
    destruct (missing_fields sc); [|by apply IH].
    rewrite IH by done.
    destruct (setup_streams before _) as [[d1 a1] e1].
    by destruct (setup_streams rest d1) as [[d2 a2] e2].
Qed.

(** X23. YAML setup of streams that all have a name: a coordinator is
    started, and its two platforms are loaded, for exactly the streams
    that have a host, a port and a mountpoint, in their order; a stream
    that lacks one of them is skipped without affecting the others.  Under
    each name the dict of coordinators holds the last complete stream of
    that name: an earlier coordinator of the same name has been started
    but is no longer in the dict.  Without any stream nothing is done and
    no cleanup is registered. *)
Theorem async_setup_named (streams : list (gmap string conf_value)) :
  Forall named streams ->
  let result := async_setup streams in
  result.2 = Returned (bool_decide (streams <> [])) /\
  result.1.2 = flat_map stream_actions (filter complete streams) /\
  forall name,
    result.1.1 !! name
    = last (filter (fun sc => sc !! "name"%string = Some name)
              (filter complete streams)).
Proof.
  intros Hnamed result. subst result. unfold async_setup.
  destruct streams as [|sc streams]; [done|].
  destruct (setup_streams_named (sc :: streams) ∅ Hnamed)
    as (data' & -> & Hlookup).
  cbn [fst snd]. split; [done|]. split; [done|].
  intros name. rewrite Hlookup, lookup_empty. by destruct (last _).
Qed.

(** X24. A stream without a name interrupts the YAML setup with a
    [KeyError]: the streams in front of it have been set up as if they were
    the whole list, and nothing behind it is looked at. *)
Theorem async_setup_missing_name
    (before after : list (gmap string conf_value))
    (stream_conf : gmap string conf_value) :
  Forall named before ->
  stream_conf !! "name"%string = None ->
  let result := async_setup (before ++ stream_conf :: after) in
  result.2 = KeyError "name" /\
  result.1 = (async_setup before).1.
Proof.
  intros Hnamed Hnone result. subst result. unfold async_setup.
  destruct (before ++ stream_conf :: after) as [|x l] eqn:Heq;
    [by destruct before|].
  rewrite <- Heq, setup_streams_app by done.
  destruct (setup_streams_named before ∅ Hnamed) as (data' & Hrun & _).
  rewrite Hrun. cbn [setup_streams]. rewrite Hnone, app_nil_r.
  cbn [fst snd]. split; [done|].
  destruct before as [|b before]; [|done].
  cbn in Hrun. by injection Hrun as <-.
Qed.

(** ** Instances *)

(** The last message after two messages. *)
Lemma last_message_sensor_no_data_witness :
  let c := (@_run (const_py 50) (__init__ 10) sample_events).1.1 in
  message_count c <> 0 /\
  last_message_native_value c = str_lit "RTCM 1087 (6 sats)".
Proof.
  intros c.
  assert (Hcount : message_count c <> 0) by discriminate.
  split; [exact Hcount|].
  destruct (@last_message_sensor_no_data (const_py 50) 10 sample_events)
    as [_ Hsome].
  destruct (Hsome Hcount) as (summary & Hvalue & Hlast).
  vm_compute in Hlast. injection Hlast as <-. exact Hvalue.
Defined.

(** Nine GPS and six GLONASS satellites. *)
Lemma satellite_attributes_sum_witness :
  let c := (@_run (const_py 50) (__init__ 10) sample_events).1.1 in
  decoded_events sample_events /\
  satellite_attributes c
  = [("total_satellites", 15); ("gps", 9); ("glonass", 6)]%string /\
  foldr Z.add 0 (map snd (tail (satellite_attributes c))) = 15.
Proof.
  intros c.
  assert (Hevs : decoded_events sample_events).
  { assert (Hw : forall msg_id len n,
              0 <= msg_id <= 4095 -> 0 <= len <= 1023 -> 1 <= n <= 64 ->
              well_formed_message (MessageInfo msg_id len (Some n))).
    { intros msg_id len n ? ? ?. split; [done|].
      split; [done|]. by intros ? [= <-]. }
    apply Forall_cons_2; [apply Hw; lia|].
    apply Forall_cons_2; [apply Hw; lia|]. apply Forall_nil_2. }
  split; [exact Hevs|]. split; [reflexivity|].
  destruct (@satellite_attributes_sum (const_py 50) 10 sample_events Hevs)
    as (_ & _ & Hsum & _).
  exact Hsum.
Defined.

(** Room for three ids, four seen: the oldest is gone and the rest is
    shown in ascending order. *)
Lemma message_types_sensor_witness :
  let c := (@_run (const_py 3) (__init__ 10)
              (four_types_events
               ++ [Yielded (108, 109) (MessageInfo 1005 19 None)])).1.1 in
  0 < @MAX_MESSAGE_TYPES (const_py 3) /\
  message_types c = [1097; 1127; 1005] /\
  message_types_attributes c = ([1005; 1097; 1127], 3) /\
  message_types_native_value c = str_lit "1005,1097,1127" /\
  StronglySorted Z.lt (message_types_attributes c).1.
Proof.
  intros c.
  assert (Hmax : 0 < @MAX_MESSAGE_TYPES (const_py 3)) by (cbn; lia).
  destruct (@message_types_sensor (const_py 3) 10
              (four_types_events
               ++ [Yielded (108, 109) (MessageInfo 1005 19 None)]) Hmax)
    as (Hsorted & _).
  split; [exact Hmax|]. split; [reflexivity|]. split; [reflexivity|].
  split; [reflexivity|exact Hsorted].
Defined.

(** Two messages on a fresh coordinator. *)
Lemma streaming_session_times_witness :
  let c := (@_run (const_py 50) (__init__ 10) []).1.1 in
  let after :=
    @run_events (const_py 50) c Streaming
      (yields [(100, 101, MessageInfo 1077 20 (Some 9));
               (102, 103, MessageInfo 1087 20 (Some 6))]) in
  stop_event c = false /\ connected c = false /\
  connection_time after.1.1 = Some 100 /\ last_update after.1.1 = Some 103.
Proof.
  intros c after.
  assert (Hstop : stop_event c = false) by reflexivity.
  destruct (@streaming_session_times (const_py 50) c
              (100, 101, MessageInfo 1077 20 (Some 9))
              [(102, 103, MessageInfo 1087 20 (Some 6))] Hstop)
    as (_ & _ & _ & Htime & Hupdate & _).
  split; [exact Hstop|]. split; [reflexivity|].
  split; [exact Htime|exact Hupdate].
Defined.

(** A stop request in the middle of a session. *)
Lemma run_stopped_witness :
  let c := (@_run (const_py 50) (__init__ 10)
              (sample_events ++ [StopRequested])).1.1 in
  let after :=
    @run_events (const_py 50) c Streaming
      [Yielded (104, 105) (MessageInfo 1097 20 (Some 5)); Woke] in
  stop_event c = true /\ message_count c = 2 /\
  message_count after.1.1 = 2 /\ after.1.2 = Finished /\ after.2 = [].
Proof.
  intros c after.
  assert (Hstop : stop_event c = true) by reflexivity.
  destruct (@run_stopped (const_py 50) c Streaming
              [Yielded (104, 105) (MessageInfo 1097 20 (Some 5)); Woke] Hstop)
    as (_ & Hstat & _).
  split; [exact Hstop|]. split; [reflexivity|].
  split; [|split; reflexivity].
  apply (f_equal (fun s => s.1.1.1.1.1)) in Hstat. exact Hstat.
Defined.

(** A new callback, and one registered a second time: removing the latter
    once takes its first registration away. *)
Lemma register_then_remove_listener_witness :
  (3%nat ∉ [1; 2]%nat) /\
  remove_listener 3%nat (register_listener 3%nat [1; 2]%nat) = [1; 2]%nat /\
  (2%nat ∉ [1]%nat) /\
  remove_listener 2%nat (register_listener 2%nat [1; 2; 3; 2]%nat)
  = [1; 3; 2; 2]%nat.
Proof.
  assert (Hnot : 3%nat ∉ [1; 2]%nat) by (by apply not_elem_of_cons; split;
    [|apply not_elem_of_cons; split; [|apply not_elem_of_nil]]).
  assert (Hfirst : 2%nat ∉ [1]%nat)
    by (by apply not_elem_of_cons; split; [|apply not_elem_of_nil]).
  split; [exact Hnot|].
  destruct (register_then_remove_listener 3%nat [1; 2]%nat)
    as (_ & Hsame & _).
  split; [exact (Hsame Hnot)|]. split; [exact Hfirst|].
  destruct (register_then_remove_listener 2%nat [1; 2; 3; 2]%nat)
    as (_ & _ & Hearliest).
  exact (Hearliest [1]%nat [3; 2]%nat eq_refl Hfirst).
Defined.

Lemma remove_listener_once_witness :
  (1%nat ∈ [1; 2; 1]%nat) /\
  remove_listener 1%nat [1; 2; 1]%nat = [2; 1]%nat /\
  S (length (remove_listener 1%nat [1; 2; 1]%nat)) = 3%nat.
Proof.
  assert (Hin : 1%nat ∈ [1; 2; 1]%nat) by apply list_elem_of_here.
  split; [exact Hin|]. split; [reflexivity|].
  destruct (remove_listener_once 1%nat [1; 2; 1]%nat) as [_ Hone].
  destruct (Hone Hin) as (_ & Hlen & _). exact Hlen.
Defined.

(** The ICY response with a frame behind its headers is validated. *)
Lemma validate_connection_first_frame_witness :
  check_response icy_ok_response = inr (msm_1077_frame ++ []) /\
  validate_connection (str_lit "Base") sample_client Opened
    [ReadData icy_ok_response; ReadRaises TimeoutError]
  = Validated (str_lit "Base").
Proof.
  assert (Hcheck : check_response icy_ok_response
                   = inr (msm_1077_frame ++ [])) by reflexivity.
  split; [exact Hcheck|].
  apply (validate_connection_first_frame (str_lit "Base") sample_client
           icy_ok_response msm_1077_frame [] [ReadRaises TimeoutError]
           Hcheck); reflexivity.
Defined.

(** The 401 response is reported with its status line. *)
Lemma validate_connection_needs_frame_witness :
  unauthorized_response <> [] /\
  validate_connection (str_lit "Base") sample_client Opened
    [ReadData unauthorized_response]
  = CannotConnect
      (str_lit
         "Connection failed: NTRIP server returned: HTTP/1.0 401 Unauthorized").
Proof.
  assert (Hne : unauthorized_response <> []) by discriminate.
  split; [exact Hne|].
  destruct (validate_connection_needs_frame (str_lit "Base") sample_client
              unauthorized_response []) as [Hreject _].
  rewrite Hreject; [reflexivity|exact Hne|].
  intros H. apply str_contains_spec in H. vm_compute in H. discriminate H.
Defined.

(** A GPS MSM count after a GPS legacy count: the counter is the second
    count, not the sum. *)
Lemma on_message_overwrites_witness :
  let c := @on_message (const_py 50) (100, 101) (__init__ 10)
             (MessageInfo 1004 60 (Some 8)) in
  let c' := @on_message (const_py 50) (102, 103) c
              (MessageInfo 1077 90 (Some 11)) in
  11 <> 0 /\ gps_satellites c = 8 /\
  (gps_satellites c', glonass_satellites c', galileo_satellites c',
   beidou_satellites c') = (11, 0, 0, 0) /\
  total_satellites c' = 11.
Proof.
  intros c c'.
  assert (Hn : 11 <> 0) by discriminate.
  destruct (@on_message_overwrites (const_py 50) (102, 103) c 1077 90 11 Hn)
    as (Hgps & _).
  split; [exact Hn|]. split; [reflexivity|].
  split; [|reflexivity].
  exact (Hgps ltac:(right; lia)).
Defined.

(** Three streams of one name: the one without a port is skipped, the two
    others are started, and the dict keeps the later one. *)
Lemma async_setup_named_witness :
  let streams :=
    [stream_base (Some 2101); stream_base None; stream_base (Some 2102)] in
  Forall named streams /\
  (async_setup streams).2 = Returned true /\
  length (async_setup streams).1.2 = 6%nat /\
  (async_setup streams).1.1 !! VStr (str_lit "base")
  = Some (stream_base (Some 2102)).
Proof.
  intros streams.
  assert (Hnamed : Forall named streams).
  { repeat apply Forall_cons_2; try apply Forall_nil_2;
      by exists (VStr (str_lit "base")). }
  destruct (async_setup_named streams Hnamed) as (Hout & Hact & Hdata).
  split; [exact Hnamed|]. split; [exact Hout|].
  split; [rewrite Hact; reflexivity|].
  rewrite Hdata. reflexivity.
Defined.

(** A stream without a name behind a good one. *)
Lemma async_setup_missing_name_witness :
  Forall named [stream_base (Some 2101)] /\
  stream_unnamed !! "name"%string = None /\
  (async_setup
     ([stream_base (Some 2101)]
      ++ stream_unnamed :: [stream_base (Some 2102)])).2
  = KeyError "name".
Proof.
  assert (Hnamed : Forall named [stream_base (Some 2101)]).
  { apply Forall_cons_2; [|apply Forall_nil_2].
    by exists (VStr (str_lit "base")). }
  assert (Hnone : stream_unnamed !! "name"%string = None) by reflexivity.
  split; [exact Hnamed|]. split; [exact Hnone|].
  destruct (async_setup_missing_name [stream_base (Some 2101)]
              [stream_base (Some 2102)] stream_unnamed Hnamed Hnone)
    as [Hout _].
  exact Hout.
Defined.
